(** * CitationCompass: the search-citations aggregation pipeline

    A shallow embedding of [supabase/functions/search-citations/index.ts]:
    the two provider adapters, the fan-out join, [deduplicateResults],
    [rankResults] and the request handler, followed by the properties of
    the pipeline.

    Modelling conventions.
    - A JavaScript string is a [string] whose characters are read as code
      units 0..255 (Latin-1); [toLowerCase], [trim] and the [\s] class are
      the restrictions of the ECMAScript ones to that range.
    - A JavaScript number that holds a score is a real number: arithmetic
      is exact, the rounding of binary64 is outside the model.
    - [new Date().getFullYear()] is the parameter [currentYear] of the
      ranking functions, the field [fullYear] of the environment; it does
      not change while one request is served.
    - External calls (the AI gateway, the two provider APIs, the history
      table) are answered by an environment record; the handler returns
      the list of pipeline steps it performed next to its response.
    - The [query] and [userId] of a request body are strings when they
      are present; a body that carries another JSON value there is not a
      request of this model. *)

From Stdlib Require Import Reals Lra Lia ZArith Ascii String List.
From stdpp Require Import base decidable gmap strings list sorting.

Local Open Scope string_scope.
Local Open Scope list_scope.
#[local] Set Warnings "-clear-no-such-hyp".

(** ** JavaScript strings *)

Module JS.

(** WhiteSpace and LineTerminator code units below 256: TAB, LF, VT, FF,
    CR, SPACE and NBSP. [String.prototype.trim] and the regular
    expression class [\s] use the same set. *)
Definition isWhiteSpace (c : ascii) : bool :=
  let n := nat_of_ascii c in
  ((9 <=? n) && (n <=? 13) || (n =? 32) || (n =? 160))%nat.

(** Simple lower-case mapping of one code unit: A-Z, and the Latin-1
    capitals U+00C0..U+00DE except the multiplication sign U+00D7. *)
Definition lowerChar (c : ascii) : ascii :=
  let n := nat_of_ascii c in
  if ((65 <=? n) && (n <=? 90)
      || (192 <=? n) && (n <=? 214)
      || (216 <=? n) && (n <=? 222))%nat
  then ascii_of_nat (n + 32) else c.

(** [s.toLowerCase()] *)
Fixpoint toLowerCase (s : string) : string :=
  match s with
  | EmptyString => EmptyString
  | String c s' => String (lowerChar c) (toLowerCase s')
  end.

Fixpoint trimStart (s : string) : string :=
  match s with
  | EmptyString => EmptyString
  | String c s' => if isWhiteSpace c then trimStart s' else s
  end.

Fixpoint trimEnd (s : string) : string :=
  match s with
  | EmptyString => EmptyString
  | String c s' =>
      match trimEnd s' with
      | EmptyString => if isWhiteSpace c then EmptyString else String c EmptyString
      | t => String c t
      end
  end.

(** [s.trim()] *)
Definition trim (s : string) : string := trimEnd (trimStart s).

(** [s.includes(sub)]: [sub] occurs in [s] as a contiguous substring;
    the empty string occurs everywhere. *)
Fixpoint includes (s sub : string) : bool :=
  String.prefix sub s ||
  match s with
  | EmptyString => false
  | String _ s' => includes s' sub
  end.

(** [s.split(/\s+/)]. [inSep] tells that the previous code unit belonged
    to a separator, [cur] is the piece being read. A separator at either
    end of [s] yields an empty first or last piece, and the empty string
    splits into one empty piece, as in ECMAScript. *)
Fixpoint splitFrom (inSep : bool) (cur : string) (s : string) : list string :=
  match s with
  | EmptyString => [cur]
  | String c s' =>
      if isWhiteSpace c
      then if inSep then splitFrom true EmptyString s'
           else cur :: splitFrom true EmptyString s'
      else splitFrom false (cur ++ String c EmptyString)%string s'
  end.

Definition splitWhitespace (s : string) : list string :=
  splitFrom false EmptyString s.

(** Truthiness of an optional string ([undefined], [null] and the empty
    string are falsy). *)
Definition truthy (o : option string) : bool :=
  match o with
  | Some s => negb (String.eqb s EmptyString)
  | None => false
  end.

(** [a || b] on an optional string with a string default. *)
Definition orElse (o : option string) (d : string) : string :=
  match o with
  | Some s => if String.eqb s EmptyString then d else s
  | None => d
  end.

End JS.

(** ** Data model *)

(** The common record shape both adapters produce. *)
Record NormalizedCitation := {
  title : string;
  authors : string;
  year : option Z;
  abstract : string;
  url : option string;
  source : string;
  citationCount : N;
  doi : option string
}.

(** [{ ...result, relevanceScore: score }] *)
Record ScoredCitation := {
  citation : NormalizedCitation;
  relevanceScore : R
}.

#[global] Instance R_eq_dec : EqDecision R := Req_dec_T.

(** ** Deduplication *)

(** [result.doi || result.title.toLowerCase().trim()] *)
Definition identityKey (result : NormalizedCitation) : string :=
  JS.orElse (doi result) (JS.trim (JS.toLowerCase (title result))).

(** One iteration of the [for ... of] loop over the state
    ([seen], [unique]). *)
Definition dedupStep (st : gset string * list NormalizedCitation)
    (result : NormalizedCitation) : gset string * list NormalizedCitation :=
  let key := identityKey result in
  if decide (key ∈ st.1) then st
  else ({[key]} ∪ st.1, st.2 ++ [result]).

Definition deduplicateResults (results : list NormalizedCitation)
    : list NormalizedCitation :=
  (fold_left dedupStep results (∅, [])).2.

(** ** Ranking *)

(** [Array.prototype.sort(compareFn)]. ECMAScript requires the sort to be
    stable, and for a consistent comparator that fixes the result whatever
    algorithm the engine runs ([sorted_stable_unique] below); the model is
    the stable insertion sort: an element goes behind a later one only
    when [compareFn] of the two is positive. *)
Section ArraySort.
Context {A : Type} (compareFn : A → A → R).

Fixpoint insertSorted (x : A) (l : list A) : list A :=
  match l with
  | [] => [x]
  | y :: l' =>
      if Rlt_dec 0 (compareFn x y) then y :: insertSorted x l'
      else x :: l
  end.

Fixpoint sort (l : list A) : list A :=
  match l with
  | [] => []
  | x :: l' => insertSorted x (sort l')
  end.
End ArraySort.

(** [queryLower.split(/\s+/).filter(term => term.length > 2)] *)
Definition queryTermsOf (queryLower : string) : list string :=
  List.filter (λ term, 2 <? String.length term)%nat (JS.splitWhitespace queryLower).

(** [result.year && currentYear - result.year <= 5]: the year [0] is falsy
    like [null]. *)
Definition recent (currentYear : Z) (y : option Z) : bool :=
  match y with
  | Some y => negb (y =? 0)%Z && (currentYear - y <=? 5)%Z
  | None => false
  end.

(** The body of the [map] callback: the accumulator [score] goes through
    the seven updates in source order. *)
Definition scoreOf (currentYear : Z) (queryLower : string)
    (queryTerms : list string) (result : NormalizedCitation) : R :=
  let score := 0%R in
  let titleLower := JS.toLowerCase (title result) in
  let abstractLower := JS.toLowerCase (abstract result) in
  let score := if JS.includes titleLower queryLower then (score + 10)%R else score in
  let score :=
    fold_left (λ score term,
                 if JS.includes titleLower term then (score + 3)%R else score)
              queryTerms score in
  let score := if JS.includes abstractLower queryLower then (score + 5)%R else score in
  let score :=
    fold_left (λ score term,
                 if JS.includes abstractLower term then (score + 1)%R else score)
              queryTerms score in
  let score := (score + ln (IZR (Z.of_N (citationCount result) + 1)) * 0.5)%R in
  let score := if recent currentYear (year result) then (score + 3)%R else score in
  let score :=
    if String.eqb (source result) "Semantic Scholar" then (score + 0.5)%R else score in
  score.

Definition scoreResult (currentYear : Z) (queryLower : string)
    (queryTerms : list string) (result : NormalizedCitation) : ScoredCitation :=
  {| citation := result;
     relevanceScore := scoreOf currentYear queryLower queryTerms result |}.

(** [(a, b) => b.relevanceScore - a.relevanceScore] *)
Definition byScoreDescending (a b : ScoredCitation) : R :=
  (relevanceScore b - relevanceScore a)%R.

Definition rankResults (currentYear : Z) (results : list NormalizedCitation)
    (originalQuery : string) : list ScoredCitation :=
  let queryLower := JS.toLowerCase originalQuery in
  let queryTerms := queryTermsOf queryLower in
  sort byScoreDescending
       (map (scoreResult currentYear queryLower queryTerms) results).

(** The [relevanceScore] that [rankResults] gives to a record under a
    query. *)
Definition rankedScore (currentYear : Z) (originalQuery : string)
    (result : NormalizedCitation) : R :=
  scoreOf currentYear (JS.toLowerCase originalQuery)
          (queryTermsOf (JS.toLowerCase originalQuery)) result.

Definition scored (currentYear : Z) (originalQuery : string)
    (result : NormalizedCitation) : ScoredCitation :=
  {| citation := result;
     relevanceScore := rankedScore currentYear originalQuery result |}.

(** The score as the specification words it: a closed sum of seven
    contributions, the two per-term ones counted over the query terms. *)
Definition countTermsIn (text : string) (terms : list string) : nat :=
  length (List.filter (JS.includes text) terms).

Definition yearWithinFive (currentYear : Z) (y : option Z) : bool :=
  match y with
  | Some y => (currentYear - y <=? 5)%Z
  | None => false
  end.

Definition specScore (currentYear : Z) (originalQuery : string)
    (r : NormalizedCitation) : R :=
  let q := JS.toLowerCase originalQuery in
  let terms := List.filter (λ t, 2 <? String.length t)%nat (JS.splitWhitespace q) in
  let t := JS.toLowerCase (title r) in
  let a := JS.toLowerCase (abstract r) in
  ((if JS.includes t q then 10 else 0)
   + 3 * INR (countTermsIn t terms)
   + (if JS.includes a q then 5 else 0)
   + 1 * INR (countTermsIn a terms)
   + ln (IZR (Z.of_N (citationCount r) + 1)) * 0.5
   + (if yearWithinFive currentYear (year r) then 3 else 0)
   + (if String.eqb (source r) "Semantic Scholar" then 0.5 else 0))%R.

(** ** Provider adapters *)

(** What one call to a provider API gives the adapter: [fetch] (or the
    JSON decoding, or the mapping) throws, the response is not [ok], or a
    JSON document arrives whose item array may be absent. *)
Inductive ApiReply (Item : Type) :=
| Threw
| NotOk (status : Z)
| Payload (items : option (list Item)).
Arguments Threw {Item}.
Arguments NotOk {Item} status.
Arguments Payload {Item} items.

(** A paper of the Semantic Scholar search API, with the requested fields.
    [publicationYear] stands for [publicationDate] read through
    [new Date(...).getFullYear()]: [None] when the date is absent,
    [Some None] when it does not parse (the year is then [NaN], falsy
    downstream like an absent one). *)
Record SemanticPaper := {
  paperId : string;
  paperTitle : option string;
  paperAuthors : option (list string);
  paperYear : option Z;
  publicationYear : option (option Z);
  paperAbstract : option string;
  paperUrl : option string;
  paperCitationCount : option N;
  externalDOI : option string
}.

Record CrossRefAuthor := {
  given : option string;
  family : option string
}.

(** A work item of the CrossRef API. [publishedYear] is
    [published["date-parts"][0][0]]. *)
Record CrossRefItem := {
  itemTitle : option (list string);
  itemAuthor : option (list CrossRefAuthor);
  publishedYear : option Z;
  itemAbstract : option string;
  itemURL : option string;
  isReferencedByCount : option N;
  itemDOI : option string
}.

(** [y || null] on a year: [0] and [NaN] give [null]. *)
Definition yearOrNull (y : option Z) : option Z :=
  match y with
  | Some 0%Z => None
  | _ => y
  end.

(** [names.join(", ") || "Unknown"] on an optional array. *)
Definition joinOrUnknown (names : option (list string)) : string :=
  JS.orElse (option_map (String.concat ", ") names) "Unknown".

Definition normalizeSemantic (paper : SemanticPaper) : NormalizedCitation :=
  {| title := JS.orElse (paperTitle paper) "Untitled";
     authors := joinOrUnknown (paperAuthors paper);
     year :=
       match yearOrNull (paperYear paper) with
       | Some y => Some y
       | None =>
           match publicationYear paper with
           | Some y => y
           | None => None
           end
       end;
     abstract := JS.orElse (paperAbstract paper) "No abstract available";
     url := Some (JS.orElse (paperUrl paper)
                    ("https://www.semanticscholar.org/paper/" ++ paperId paper)%string);
     source := "Semantic Scholar";
     citationCount := default 0%N (paperCitationCount paper);
     doi := externalDOI paper |}.

Definition crossRefAuthorName (a : CrossRefAuthor) : string :=
  JS.trim (JS.orElse (given a) "" ++ " " ++ JS.orElse (family a) "")%string.

Definition normalizeCrossRef (item : CrossRefItem) : NormalizedCitation :=
  {| title := JS.orElse (itemTitle item ≫= head) "Untitled";
     authors := joinOrUnknown (option_map (map crossRefAuthorName) (itemAuthor item));
     year := yearOrNull (publishedYear item);
     abstract := JS.orElse (itemAbstract item) "No abstract available";
     url :=
       if JS.truthy (itemURL item) then itemURL item
       else if JS.truthy (itemDOI item)
            then Some ("https://doi.org/" ++ default "" (itemDOI item))%string
            else None;
     source := "CrossRef";
     citationCount := default 0%N (isReferencedByCount item);
     doi := itemDOI item |}.

(** Both adapters catch every failure and answer with the empty array. *)
Definition searchSemanticScholar (reply : ApiReply SemanticPaper)
    : list NormalizedCitation :=
  match reply with
  | Payload (Some (paper :: papers)) => map normalizeSemantic (paper :: papers)
  | _ => []
  end.

Definition searchCrossRef (reply : ApiReply CrossRefItem)
    : list NormalizedCitation :=
  match reply with
  | Payload (Some (item :: items)) => map normalizeCrossRef (item :: items)
  | _ => []
  end.

(** ** Query expansion *)

Inductive AiReply :=
| AiThrew
| AiNotOk (status : Z)
| AiContent (content : option string).

(** [data.choices[0]?.message?.content?.trim() || query], and [query] on
    every failure. *)
Definition expandQuery (query : string) (reply : AiReply) : string :=
  match reply with
  | AiContent content => JS.orElse (option_map JS.trim content) query
  | _ => query
  end.

(** ** The request handler *)

(** An element of the array [Promise.allSettled] resolves to. *)
Inductive Settled (A : Type) :=
| Fulfilled (value : A)
| Rejected (reason : string).
Arguments Fulfilled {A} value.
Arguments Rejected {A} reason.

(** [if (s.status === "fulfilled" && s.value) allResults.push(...s.value)]:
    an array, even the empty one, is truthy. *)
Definition pushSettled (allResults : list NormalizedCitation)
    (s : Settled (list NormalizedCitation)) : list NormalizedCitation :=
  match s with
  | Fulfilled value => allResults ++ value
  | Rejected _ => allResults
  end.

Definition collectResults (semanticResults crossrefResults
    : Settled (list NormalizedCitation)) : list NormalizedCitation :=
  pushSettled (pushSettled [] semanticResults) crossrefResults.

(** The message of the 404 response. *)
Definition noResultsMessage : string :=
  "No results found. Please try a different search term.".

(** The request as the handler reads it: its method is [OPTIONS], or
    [req.json()] fails with a message, or it gives an object whose
    [query] and [userId] may be absent. *)
Inductive Request :=
| Preflight
| Malformed (message : string)
| Search (query userId : option string).

Inductive Body :=
| NoBody
| ErrorBody (error : string)
| NoResultsBody (error query expandedQuery : string)
| ResultsBody (query expandedQuery : string)
              (results : list ScoredCitation) (totalFound : nat)
| FailureBody (error details : string).

Record Response := {
  status : Z;
  body : Body
}.

(** What the handler finds outside: the environment variables, the
    answers of the three services to a query, whether [createClient]
    throws, and the wall clock's year. *)
Record Env := {
  LOVABLE_API_KEY : option string;
  SUPABASE_URL : option string;
  SUPABASE_SERVICE_ROLE_KEY : option string;
  aiGateway : string → AiReply;
  semanticScholarApi : string → ApiReply SemanticPaper;
  crossRefApi : string → ApiReply CrossRefItem;
  createClientThrows : bool;
  fullYear : Z
}.

(** The downstream work of a request, in the order it is started. *)
Inductive Step :=
| ExpandQuery (query : string)
| SearchSemanticScholar (query : string)
| SearchCrossRef (query : string)
| Deduplicate (results : list NormalizedCitation)
| Rank (results : list NormalizedCitation) (originalQuery : string)
| StoreHistory (userId query expandedQuery : string)
               (results : list ScoredCitation).

(** A computation that records the steps it performs, with stdpp's
    [x ← m; k] for sequencing. *)
Definition Pipeline (A : Type) : Type := (list Step * A)%type.

#[global] Instance pipeline_ret : MRet Pipeline := λ A x, ([], x).
#[global] Instance pipeline_bind : MBind Pipeline :=
  λ A B f m, let r := f m.2 in (m.1 ++ r.1, r.2).

Definition perform {A : Type} (s : Step) (x : A) : Pipeline A := ([s], x).

Definition storeHistory (env : Env) (userId : option string)
    (query expandedQuery : string) (rankedResults : list ScoredCitation)
    : Pipeline unit :=
  if JS.truthy userId
       && JS.truthy (SUPABASE_URL env)
       && JS.truthy (SUPABASE_SERVICE_ROLE_KEY env)
       && negb (createClientThrows env)
  then perform (StoreHistory (default "" userId) query expandedQuery
                             (take 10 rankedResults)) ()
  else mret ().

(** [Deno.serve(async (req) => ...)]. The two adapters catch their own
    failures, so both promises of [Promise.allSettled] are fulfilled; the
    rejected case is the one [pushSettled] skips. Expansion and history
    failures are swallowed by their [try] blocks; console output is not
    modelled. *)
Definition handler (env : Env) (req : Request) : Pipeline Response :=
  match req with
  | Preflight => mret {| status := 200; body := NoBody |}
  | Malformed message =>
      mret {| status := 500;
              body := FailureBody message
                        "Please check the server logs for more information" |}
  | Search query userId =>
      if negb (JS.truthy query)
      then mret {| status := 400; body := ErrorBody "Query is required" |}
      else
        let query := default "" query in
        expandedQuery ←
          (if JS.truthy (LOVABLE_API_KEY env)
           then perform (ExpandQuery query) (expandQuery query (aiGateway env query))
           else mret query);
        semanticResults ←
          perform (SearchSemanticScholar expandedQuery)
                  (Fulfilled (searchSemanticScholar (semanticScholarApi env expandedQuery)));
        crossrefResults ←
          perform (SearchCrossRef expandedQuery)
                  (Fulfilled (searchCrossRef (crossRefApi env expandedQuery)));
        let allResults := collectResults semanticResults crossrefResults in
        if (length allResults =? 0)%nat
        then mret {| status := 404;
                     body := NoResultsBody noResultsMessage query expandedQuery |}
        else
          uniqueResults ← perform (Deduplicate allResults) (deduplicateResults allResults);
          rankedResults ←
            perform (Rank uniqueResults query)
                    (rankResults (fullYear env) uniqueResults query);
          _ ← storeHistory env userId query expandedQuery rankedResults;
          mret {| status := 200;
                  body := ResultsBody query expandedQuery
                            (take 10 rankedResults) (length rankedResults) |}
  end.

(** Names for the intermediate values of [handler]: the query it
    searches with, and the array [allResults] it collects. *)
Definition expandedQueryOf (env : Env) (query : string) : string :=
  if JS.truthy (LOVABLE_API_KEY env)
  then expandQuery query (aiGateway env query)
  else query.

Definition aggregated (env : Env) (expandedQuery : string)
    : list NormalizedCitation :=
  collectResults
    (Fulfilled (searchSemanticScholar (semanticScholarApi env expandedQuery)))
    (Fulfilled (searchCrossRef (crossRefApi env expandedQuery))).

(** A provider call that failed or carried no items. *)
Definition noItems {Item : Type} (reply : ApiReply Item) : bool :=
  match reply with
  | Payload (Some (_ :: _)) => false
  | _ => true
  end.

(** A settled adapter call that adds nothing to [allResults]. *)
Definition settledEmpty (s : Settled (list NormalizedCitation)) : bool :=
  match s with
  | Fulfilled (_ :: _) => false
  | _ => true
  end.

(** ** Sample records *)

Definition untitledRecord : NormalizedCitation :=
  {| title := "Untitled"; authors := "Unknown"; year := None;
     abstract := "No abstract available"; url := None;
     source := "CrossRef"; citationCount := 0; doi := None |}.

Definition withTitle (t : string) (r : NormalizedCitation) : NormalizedCitation :=
  {| title := t; authors := authors r; year := year r; abstract := abstract r;
     url := url r; source := source r; citationCount := citationCount r;
     doi := doi r |}.

Definition withDoi (d : option string) (r : NormalizedCitation) : NormalizedCitation :=
  {| title := title r; authors := authors r; year := year r; abstract := abstract r;
     url := url r; source := source r; citationCount := citationCount r;
     doi := d |}.

Definition withCitationCount (c : N) (r : NormalizedCitation) : NormalizedCitation :=
  {| title := title r; authors := authors r; year := year r; abstract := abstract r;
     url := url r; source := source r; citationCount := c;
     doi := doi r |}.

(** The example of the specification: one DOI, two titles; and a record
    without DOI whose title reads like that DOI. *)
Definition fooRecord : NormalizedCitation :=
  withDoi (Some "10.1/x") (withTitle "Foo" untitledRecord).
Definition barRecord : NormalizedCitation :=
  withDoi (Some "10.1/x") (withTitle "Bar" untitledRecord).
Definition titledLikeDoi : NormalizedCitation :=
  withTitle "10.1/X" untitledRecord.

Definition deepLearningFirst : NormalizedCitation :=
  withTitle "Deep Learning" untitledRecord.
Definition deepLearningSecond : NormalizedCitation :=
  withTitle "deep   learning " untitledRecord.
Definition deepLearningPadded : NormalizedCitation :=
  withTitle " deep learning " untitledRecord.

(** A query too short to have terms, and two titles that both contain
    it. *)
Definition aiForHealth : NormalizedCitation :=
  withTitle "AI for health" untitledRecord.
Definition fairnessInAI : NormalizedCitation :=
  withTitle "Fairness in AI" untitledRecord.

Definition surveyRecord : NormalizedCitation :=
  {| title := "A Survey of Deep Learning"; authors := "Ada Lovelace";
     year := Some 2024%Z; abstract := "Deep learning, surveyed.";
     url := None; source := "Semantic Scholar"; citationCount := 12;
     doi := Some "10.1/survey" |}.

(** One paper as both providers report it, and environments in which
    the providers answer with it or fail. *)
Definition samplePaper : SemanticPaper :=
  {| paperId := "649def34"; paperTitle := Some "Attention Is All You Need";
     paperAuthors := Some ["Ashish Vaswani"; "Noam Shazeer"];
     paperYear := Some 2017%Z; publicationYear := Some (Some 2017%Z);
     paperAbstract := None; paperUrl := None;
     paperCitationCount := Some 1000%N;
     externalDOI := Some "10.5555/3295222" |}.

Definition sampleItem : CrossRefItem :=
  {| itemTitle := Some ["Attention is all you need"];
     itemAuthor := Some [ {| given := Some "Ashish"; family := Some "Vaswani" |} ];
     publishedYear := Some 2017%Z; itemAbstract := None;
     itemURL := None; isReferencedByCount := Some 900%N;
     itemDOI := Some "10.5555/3295222" |}.

Definition sampleEnv : Env :=
  {| LOVABLE_API_KEY := None; SUPABASE_URL := None;
     SUPABASE_SERVICE_ROLE_KEY := None;
     aiGateway := λ _, AiThrew;
     semanticScholarApi := λ _, Payload (Some [samplePaper]);
     crossRefApi := λ _, Payload (Some [sampleItem]);
     createClientThrows := false;
     fullYear := 2026 |}.

Definition failingEnv : Env :=
  {| LOVABLE_API_KEY := Some "key"; SUPABASE_URL := None;
     SUPABASE_SERVICE_ROLE_KEY := None;
     aiGateway := λ _, AiContent (Some " transformer attention ");
     semanticScholarApi := λ _, Threw;
     crossRefApi := λ _, Payload (Some []);
     createClientThrows := false;
     fullYear := 2026 |}.

(** ** Further vocabulary for the properties *)

(** Every code unit of [s] is white space. *)
Fixpoint allWhiteSpace (s : string) : bool :=
  match s with
  | EmptyString => true
  | String c s' => JS.isWhiteSpace c && allWhiteSpace s'
  end.

(** Some code unit of [s] is white space. *)
Fixpoint hasWhiteSpace (s : string) : bool :=
  match s with
  | EmptyString => false
  | String c s' => JS.isWhiteSpace c || hasWhiteSpace s'
  end.

Definition withSource (s : string) (r : NormalizedCitation) : NormalizedCitation :=
  {| title := title r; authors := authors r; year := year r; abstract := abstract r;
     url := url r; source := s; citationCount := citationCount r;
     doi := doi r |}.

(** The environment with the expansion key taken away. *)
Definition withoutExpansionKey (env : Env) : Env :=
  {| LOVABLE_API_KEY := None;
     SUPABASE_URL := SUPABASE_URL env;
     SUPABASE_SERVICE_ROLE_KEY := SUPABASE_SERVICE_ROLE_KEY env;
     aiGateway := aiGateway env;
     semanticScholarApi := semanticScholarApi env;
     crossRefApi := crossRefApi env;
     createClientThrows := createClientThrows env;
     fullYear := fullYear env |}.

(** An answer of the AI gateway from which [expandQuery] gets no text. *)
Definition noExpansion (reply : AiReply) : bool :=
  match reply with
  | AiContent (Some content) => String.eqb (JS.trim content) ""
  | _ => true
  end.

Definition withAbstract (a : string) (r : NormalizedCitation) : NormalizedCitation :=
  {| title := title r; authors := authors r; year := year r; abstract := a;
     url := url r; source := source r; citationCount := citationCount r;
     doi := doi r |}.

(** The environment with another history store configuration. *)
Definition withHistoryStore (supabaseUrl supabaseKey : option string)
    (clientThrows : bool) (env : Env) : Env :=
  {| LOVABLE_API_KEY := LOVABLE_API_KEY env;
     SUPABASE_URL := supabaseUrl;
     SUPABASE_SERVICE_ROLE_KEY := supabaseKey;
     aiGateway := aiGateway env;
     semanticScholarApi := semanticScholarApi env;
     crossRefApi := crossRefApi env;
     createClientThrows := clientThrows;
     fullYear := fullYear env |}.

(** [sampleEnv] with an expansion key (the gateway still fails) and with
    a history store. *)
Definition keyedSampleEnv : Env :=
  {| LOVABLE_API_KEY := Some "key"; SUPABASE_URL := None;
     SUPABASE_SERVICE_ROLE_KEY := None;
     aiGateway := λ _, AiThrew;
     semanticScholarApi := λ _, Payload (Some [samplePaper]);
     crossRefApi := λ _, Payload (Some [sampleItem]);
     createClientThrows := false;
     fullYear := 2026 |}.

Definition storingSampleEnv : Env :=
  withHistoryStore (Some "https://project.supabase.co") (Some "service-role")
                   false sampleEnv.

(** * Properties *)

(** ** Deduplication *)

Section Dedup.
Implicit Types (l results : list NormalizedCitation) (r : NormalizedCitation).
Implicit Types (seen : gset string) (k : string).

Lemma dedup_fold_seen l seen unique :
  (fold_left dedupStep l (seen, unique)).1
  = seen ∪ list_to_set (identityKey <$> l).
Proof.
  revert seen unique. induction l as [|r l IH]; intros seen unique; simpl.
  - set_solver.
  - unfold dedupStep at 2; simpl. case_decide; rewrite IH; set_solver.
Qed.

Lemma deduplicateResults_nil : deduplicateResults [] = [].
Proof. reflexivity. Qed.

(** The loop, one record later. *)
Lemma deduplicateResults_snoc l r :
  deduplicateResults (l ++ [r])
  = deduplicateResults l
      ++ (if decide (identityKey r ∈ identityKey <$> l) then [] else [r]).
Proof.
  unfold deduplicateResults. rewrite fold_left_app. simpl.
  unfold dedupStep at 1. rewrite dedup_fold_seen.
  destruct (decide (identityKey r ∈ identityKey <$> l)) as [Hin|Hin];
    case_decide as Hset; simpl; try done.
  - by rewrite app_nil_r.
  - exfalso. apply Hset. set_solver.
  - exfalso. apply Hin. set_solver.
Qed.

Lemma deduplicateResults_sublist l : deduplicateResults l `sublist_of` l.
Proof.
  induction l as [|r l IH] using rev_ind; [done|].
  rewrite deduplicateResults_snoc. apply sublist_app; [done|].
  case_decide; [apply sublist_nil_l | done].
Qed.

(** For every key, the survivor is the first record that carries it. *)
Lemma deduplicateResults_by_key l k :
  filter (λ r, identityKey r = k) (deduplicateResults l)
  = take 1 (filter (λ r, identityKey r = k) l).
Proof.
  induction l as [|r l IH] using rev_ind; [done|].
  rewrite deduplicateResults_snoc, !filter_app, IH.
  destruct (decide (identityKey r = k)) as [Hk|Hk].
  - rewrite (filter_cons_True _ r []) by done. rewrite filter_nil.
    case_decide as Hin.
    + rewrite filter_nil, app_nil_r.
      apply list_elem_of_fmap in Hin as (e & He & Hel).
      assert (e ∈ filter (λ r, identityKey r = k) l) as Hf
        by (apply list_elem_of_filter; split; congruence).
      destruct (filter (λ r, identityKey r = k) l); [by apply elem_of_nil in Hf|done].
    + rewrite (filter_cons_True _ r []) by done. rewrite filter_nil.
      destruct (filter (λ r, identityKey r = k) l) as [|e f] eqn:Hf; [done|].
      exfalso. apply Hin.
      assert (e ∈ filter (λ r, identityKey r = k) l) as He
        by (rewrite Hf; apply list_elem_of_here).
      apply list_elem_of_filter in He as [He Hel].
      apply list_elem_of_fmap. exists e. split; [congruence|done].
  - rewrite (filter_cons_False _ r []) by done. rewrite filter_nil, app_nil_r.
    case_decide; [by rewrite filter_nil, app_nil_r|].
    by rewrite (filter_cons_False _ r []), filter_nil, app_nil_r.
Qed.

Lemma deduplicateResults_nonempty l : l ≠ [] → deduplicateResults l ≠ [].
Proof.
  destruct l as [|r l]; [done|]. intros _ Hnil.
  pose proof (deduplicateResults_by_key (r :: l) (identityKey r)) as Hk.
  rewrite Hnil, filter_nil, filter_cons_True in Hk by done. done.
Qed.
End Dedup.

Lemma identityKey_doi r d : doi r = Some d → d ≠ "" → identityKey r = d.
Proof.
  intros Hd Hne. unfold identityKey, JS.orElse. rewrite Hd.
  destruct (String.eqb_spec d ""); done.
Qed.

Lemma identityKey_no_doi r :
  JS.truthy (doi r) = false → identityKey r = JS.trim (JS.toLowerCase (title r)).
Proof.
  unfold identityKey, JS.orElse, JS.truthy.
  destruct (doi r) as [d|]; [|done]. by destruct (String.eqb d "").
Qed.

(** C2, the claim as stated fails: in the list below the two records that
    share the DOI 10.1/x come after a record without DOI whose title,
    lower-cased, is that DOI; the first of the two is then dropped as
    well, and no record with the DOI is kept. *)
Lemma deduplicateResults_shared_doi_counterexample :
  deduplicateResults [titledLikeDoi; fooRecord; barRecord] = [titledLikeDoi]
  ∧ filter (λ r, doi r = Some "10.1/x")
           (deduplicateResults [titledLikeDoi; fooRecord; barRecord]) = []
  ∧ take 1 (filter (λ r, doi r = Some "10.1/x")
                   [titledLikeDoi; fooRecord; barRecord]) = [fooRecord].
Proof. split_and!; vm_compute; reflexivity. Qed.

(** C2 (amended): [deduplicateResults] is order-preserving and keeps a
    record iff its identity key (the DOI when present and non-empty,
    otherwise the lower-cased, trimmed title) has not occurred in an
    earlier record. Among the records that share a non-empty DOI every one
    after the first is dropped whatever the titles, and the first is kept
    unless an earlier record without DOI has that DOI as its lower-cased,
    trimmed title; two records with different non-empty DOIs have
    different keys, so that the earlier one never makes the later one a
    duplicate, whatever their titles. *)
Theorem deduplicateResults_first_occurrence :
  (∀ r d, doi r = Some d → d ≠ "" → identityKey r = d)
  ∧ (∀ r, JS.truthy (doi r) = false →
          identityKey r = JS.trim (JS.toLowerCase (title r)))
  ∧ (∀ l, deduplicateResults l `sublist_of` l)
  ∧ deduplicateResults [] = []
  ∧ (∀ l r,
       deduplicateResults (l ++ [r])
       = deduplicateResults l
           ++ (if decide (identityKey r ∈ identityKey <$> l) then [] else [r]))
  ∧ (∀ l1 a l2 d,
       doi a = Some d → d ≠ "" → (∀ e, e ∈ l1 → doi e ≠ Some d) →
       filter (λ r, doi r = Some d) (deduplicateResults (l1 ++ a :: l2))
       = if decide (Exists (λ e, JS.truthy (doi e) = false
                                 ∧ JS.trim (JS.toLowerCase (title e)) = d) l1)
         then [] else [a])
  ∧ (∀ l1 a l2 b da db,
       doi a = Some da → da ≠ "" → doi b = Some db → db ≠ "" → da ≠ db →
       identityKey a ≠ identityKey b
       ∧ deduplicateResults (l1 ++ a :: l2 ++ [b])
         = deduplicateResults (l1 ++ a :: l2)
             ++ (if decide (identityKey b ∈ identityKey <$> (l1 ++ l2))
                 then [] else [b])).
Proof.
  split_and!.
  - apply identityKey_doi.
  - apply identityKey_no_doi.
  - apply deduplicateResults_sublist.
  - apply deduplicateResults_nil.
  - apply deduplicateResults_snoc.
  - intros l1 a l2 d Hd Hne Hl1.
    assert (identityKey a = d) as Hka by by apply identityKey_doi.
    rewrite <- (list_filter_filter_l _ (λ r, identityKey r = d)).
    2:{ intros x Hx. by apply identityKey_doi. }
    rewrite deduplicateResults_by_key, filter_app.
    rewrite filter_cons_True by done.
    assert (d ∈ identityKey <$> l1
            ↔ Exists (λ e, JS.truthy (doi e) = false
                           ∧ JS.trim (JS.toLowerCase (title e)) = d) l1) as Hiff.
    { rewrite list_elem_of_fmap, Exists_exists. split.
      - intros (e & -> & He). exists e. split; [done|].
        destruct (JS.truthy (doi e)) eqn:Ht.
        + exfalso. apply (Hl1 e He). unfold JS.truthy in Ht.
          destruct (doi e) as [d'|] eqn:Hd'; [|done].
          destruct (String.eqb_spec d' ""); [done|].
          by rewrite (identityKey_doi e d').
        + by rewrite identityKey_no_doi.
      - intros (e & He & Ht & Hk). exists e.
        by rewrite identityKey_no_doi. }
    case_decide as Hin; rewrite <- Hiff in Hin.
    + apply list_elem_of_fmap in Hin as (e & He & Hel).
      assert (e ∈ filter (λ r, identityKey r = d) l1) as Hf
        by (apply list_elem_of_filter; split; congruence).
      destruct (filter (λ r, identityKey r = d) l1) as [|x f] eqn:Hfl;
        [by apply elem_of_nil in Hf|].
      simpl. rewrite take_0, filter_cons_False; [by rewrite filter_nil|].
      apply Hl1. assert (x ∈ filter (λ r, identityKey r = d) l1) as Hx
        by (rewrite Hfl; apply list_elem_of_here).
      by apply list_elem_of_filter in Hx as [_ ?].
    + destruct (filter (λ r, identityKey r = d) l1) as [|x f] eqn:Hfl.
      * simpl. rewrite take_0. by rewrite filter_cons_True, filter_nil.
      * exfalso. apply Hin.
        assert (x ∈ filter (λ r, identityKey r = d) l1) as Hx
          by (rewrite Hfl; apply list_elem_of_here).
        apply list_elem_of_filter in Hx as [Hx Hxl].
        apply list_elem_of_fmap. by exists x.
  - intros l1 a l2 b da db Ha Hda Hb Hdb Hne.
    rewrite (identityKey_doi a da), (identityKey_doi b db) by done.
    split; [done|].
    rewrite app_comm_cons, (app_assoc l1 (a :: l2) [b]), deduplicateResults_snoc.
    f_equal. apply decide_ext.
    rewrite !fmap_app, fmap_cons, !elem_of_app, elem_of_cons.
    rewrite (identityKey_doi a da Ha Hda), (identityKey_doi b db Hb Hdb).
    naive_solver.
Qed.

(** The example of the specification, A(doi 10.1/x, "Foo") and
    B(doi 10.1/x, "Bar"): only A is kept. *)
Lemma deduplicateResults_first_occurrence_witness :
  filter (λ r, doi r = Some "10.1/x")
         (deduplicateResults ([] ++ fooRecord :: [barRecord]))
  = if decide (Exists (λ e, JS.truthy (doi e) = false
                            ∧ JS.trim (JS.toLowerCase (title e)) = "10.1/x") [])
    then [] else [fooRecord].
Proof.
  apply (proj1 (proj2 (proj2 (proj2 (proj2 (proj2
           deduplicateResults_first_occurrence)))))).
  - reflexivity.
  - discriminate.
  - intros e He. by apply elem_of_nil in He.
Defined.

(** C3, the claim as stated fails: [trim] leaves the three inner spaces,
    the two keys differ and both records are kept. *)
Lemma deduplicateResults_deep_learning_counterexample :
  deduplicateResults [deepLearningFirst; deepLearningSecond]
  = [deepLearningFirst; deepLearningSecond].
Proof. vm_compute. reflexivity. Qed.

(** C3 (amended): two records without DOI titled "Deep Learning" and
    "deep   learning " have the keys "deep learning" and
    "deep   learning", which differ in the inner run of spaces, so
    [deduplicateResults] keeps both; a second record titled
    " deep learning " (case and outer whitespace only) is dropped. *)
Theorem deduplicateResults_deep_learning (a b c : NormalizedCitation) :
  doi a = None → doi b = None → doi c = None →
  title a = "Deep Learning" →
  title b = "deep   learning " →
  title c = " deep learning " →
  identityKey a = "deep learning"
  ∧ identityKey b = "deep   learning"
  ∧ identityKey c = "deep learning"
  ∧ deduplicateResults [a; b] = [a; b]
  ∧ deduplicateResults [a; c] = [a].
Proof.
  intros Ha Hb Hc Hta Htb Htc.
  assert (identityKey a = "deep learning") as Hka
    by (rewrite identityKey_no_doi, Hta; [done | by rewrite Ha]).
  assert (identityKey b = "deep   learning") as Hkb
    by (rewrite identityKey_no_doi, Htb; [done | by rewrite Hb]).
  assert (identityKey c = "deep learning") as Hkc
    by (rewrite identityKey_no_doi, Htc; [done | by rewrite Hc]).
  pose proof (deduplicateResults_snoc [] a) as Hone. simpl in Hone.
  pose proof (deduplicateResults_snoc [a] b) as Hab.
  pose proof (deduplicateResults_snoc [a] c) as Hac.
  simpl in Hab, Hac. rewrite Hone, Hka in Hab, Hac.
  split_and!; [done..| |].
  - rewrite Hab, Hkb, decide_False; [done|].
    by intros ?%list_elem_of_singleton.
  - rewrite Hac, Hkc, decide_True; [done|]. apply list_elem_of_here.
Qed.

Lemma deduplicateResults_deep_learning_witness :
  identityKey deepLearningFirst = "deep learning"
  ∧ identityKey deepLearningSecond = "deep   learning"
  ∧ identityKey deepLearningPadded = "deep learning"
  ∧ deduplicateResults [deepLearningFirst; deepLearningSecond]
    = [deepLearningFirst; deepLearningSecond]
  ∧ deduplicateResults [deepLearningFirst; deepLearningPadded]
    = [deepLearningFirst].
Proof.
  apply (deduplicateResults_deep_learning
           deepLearningFirst deepLearningSecond deepLearningPadded);
    reflexivity.
Defined.

(** ** Substrings and query terms *)

Section Strings.
Local Open Scope string_scope.
Implicit Types (s t u p sub cur pre post : string).

Lemma append_cons c s t : String c s ++ t = String c (s ++ t).
Proof. reflexivity. Qed.

Lemma append_empty_l s : "" ++ s = s.
Proof. reflexivity. Qed.

Lemma append_assoc s t u : (s ++ t) ++ u = s ++ t ++ u.
Proof.
  induction s as [|c s IH]; [done|]. by rewrite !append_cons, IH.
Qed.

Lemma prefix_spec p s : String.prefix p s = true ↔ ∃ post, s = p ++ post.
Proof.
  revert p. induction s as [|c s IH]; intros [|a p]; simpl.
  - split; [by exists "" | done].
  - split; [done | by intros [post ?]].
  - split; [by exists (String c s) | done].
  - destruct (ascii_dec a c) as [->|Hne].
    + rewrite IH. split; intros [post Hp]; exists post.
      * by rewrite append_cons, Hp.
      * rewrite append_cons in Hp. congruence.
    + split; [done | intros [post Hp]].
      rewrite append_cons in Hp. congruence.
Qed.

Lemma includes_spec s sub :
  JS.includes s sub = true ↔ ∃ pre post, s = pre ++ sub ++ post.
Proof.
  induction s as [|c s IH].
  - change (JS.includes "" sub) with (String.prefix sub "" || false).
    rewrite orb_true_iff, prefix_spec. split.
    + intros [[post Hp]|?]; [|done]. by exists "", post.
    + intros (pre & post & Hp). left.
      destruct pre; [by exists post | done].
  - change (JS.includes (String c s) sub)
      with (String.prefix sub (String c s) || JS.includes s sub).
    rewrite orb_true_iff, prefix_spec, IH. split.
    + intros [[post Hp]|(pre & post & Hp)].
      * by exists "", post.
      * exists (String c pre), post. by rewrite append_cons, Hp.
    + intros ([|a pre] & post & Hp);
        rewrite ?append_cons, ?append_empty_l in Hp.
      * left. by exists post.
      * right. exists pre, post. congruence.
Qed.

Lemma includes_trans s t u :
  JS.includes s t = true → JS.includes t u = true → JS.includes s u = true.
Proof.
  rewrite !includes_spec. intros (a & b & ->) (a' & b' & ->).
  exists (a ++ a'), (b' ++ b). by rewrite !append_assoc.
Qed.

(** Every piece [split] returns is a contiguous part of the string. *)
Lemma splitFrom_pieces s inSep cur pre t :
  t ∈ JS.splitFrom inSep cur s →
  ∃ a b, pre ++ cur ++ s = a ++ t ++ b.
Proof.
  revert inSep cur pre. induction s as [|c s IH]; intros inSep cur pre; simpl.
  - intros ->%list_elem_of_singleton. by exists pre, "".
  - destruct (JS.isWhiteSpace c).
    + assert (t ∈ JS.splitFrom true "" s →
              ∃ a b, pre ++ cur ++ String c s = a ++ t ++ b) as Hrest.
      { intros Ht.
        destruct (IH true "" (pre ++ cur ++ String c "") Ht) as (a & b & Hab).
        exists a, b. rewrite <- Hab.
        by rewrite !append_assoc, append_cons, !append_empty_l. }
      destruct inSep; [done|].
      intros [->|Ht]%elem_of_cons; [|auto]. by exists pre, (String c s).
    + intros Ht. destruct (IH false (cur ++ String c "") pre Ht) as (a & b & Hab).
      exists a, b. rewrite <- Hab. by rewrite !append_assoc.
Qed.

Lemma queryTermsOf_includes q t :
  t ∈ queryTermsOf q → JS.includes q t = true.
Proof.
  unfold queryTermsOf, JS.splitWhitespace. intros Ht.
  apply list_elem_of_In, filter_In in Ht as [Ht _].
  apply list_elem_of_In in Ht.
  destruct (splitFrom_pieces q false "" "" t Ht) as (a & b & Hab).
  apply includes_spec. by exists a, b.
Qed.
End Strings.

(** ** Sorting *)

Section ArraySortFacts.
Context {A : Type}.
Implicit Types (l : list A) (x y : A).

Lemma insertSorted_perm (compareFn : A → A → R) x l :
  insertSorted compareFn x l ≡ₚ x :: l.
Proof.
  induction l as [|y l IH]; simpl; [done|].
  destruct (Rlt_dec 0 (compareFn x y)); [|done].
  rewrite IH. apply Permutation_swap.
Qed.

Lemma sort_perm (compareFn : A → A → R) l : sort compareFn l ≡ₚ l.
Proof.
  induction l as [|x l IH]; simpl; [done|].
  by rewrite insertSorted_perm, IH.
Qed.

Lemma sort_length (compareFn : A → A → R) l :
  length (sort compareFn l) = length l.
Proof. by rewrite sort_perm. Qed.

(** Comparators of the shape [(a, b) => key(b) - key(a)]. *)
Context (key : A → R).
Let descending (a b : A) : R := (key b - key a)%R.
Let nonIncreasing (a b : A) : Prop := (key b <= key a)%R.

Lemma insertSorted_sorted x l :
  StronglySorted nonIncreasing l →
  StronglySorted nonIncreasing (insertSorted descending x l).
Proof.
  induction 1 as [|y l Hl IH Hy]; simpl.
  - by repeat constructor.
  - unfold descending at 1. destruct (Rlt_dec 0 (key y - key x)) as [Hlt|Hge].
    + constructor; [done|]. rewrite insertSorted_perm. constructor; [|done].
      unfold nonIncreasing. lra.
    + constructor; [by constructor|]. constructor.
      * unfold nonIncreasing. lra.
      * eapply Forall_impl; [exact Hy|]. unfold nonIncreasing. intros; simpl in *. lra.
Qed.

Lemma sort_sorted l : StronglySorted nonIncreasing (sort descending l).
Proof.
  induction l as [|x l IH]; simpl; [constructor|]. by apply insertSorted_sorted.
Qed.

(** Stability: the elements of one key value keep their order. *)
Lemma insertSorted_stable (v : R) x l :
  filter (λ a, key a = v) (insertSorted descending x l)
  = filter (λ a, key a = v) (x :: l).
Proof.
  induction l as [|y l IH]; simpl; [done|].
  unfold descending at 1. destruct (Rlt_dec 0 (key y - key x)) as [Hlt|Hge]; [|done].
  rewrite (filter_cons _ y), IH, !(filter_cons _ x), (filter_cons _ y).
  repeat case_decide; try done. lra.
Qed.

Lemma sort_stable (v : R) l :
  filter (λ a, key a = v) (sort descending l) = filter (λ a, key a = v) l.
Proof.
  induction l as [|x l IH]; simpl; [done|].
  by rewrite insertSorted_stable, !(filter_cons _ x), IH.
Qed.

(** A list already in non-increasing order is left as it is. *)
Lemma sort_sorted_id l :
  StronglySorted nonIncreasing l → sort descending l = l.
Proof.
  induction 1 as [|x l Hl IH Hx]; simpl; [done|]. rewrite IH.
  destruct Hx as [|y l Hy _]; simpl; [done|].
  unfold descending. destruct (Rlt_dec 0 (key y - key x)); [|done].
  unfold nonIncreasing in Hy. lra.
Qed.
(** Sortedness and stability leave one arrangement only: every stable
    sort returns what [sort] returns. *)
Lemma sorted_stable_unique l1 l2 :
  StronglySorted nonIncreasing l1 → StronglySorted nonIncreasing l2 →
  (∀ v : R, filter (λ a, key a = v) l1 = filter (λ a, key a = v) l2) →
  l1 = l2.
Proof.
  assert (∀ y t l (v := key y),
            filter (λ a, key a = v) l = filter (λ a, key a = v) (y :: t) →
            ∃ z, z ∈ l ∧ key z = key y) as Hhas.
  { intros y t l v Hf. rewrite filter_cons_True in Hf by done.
    assert (y ∈ filter (λ a, key a = v) l) as Hy
      by (rewrite Hf; apply list_elem_of_here).
    apply list_elem_of_filter in Hy as [_ Hy]. by exists y. }
  assert (∀ x t z, Forall (nonIncreasing x) t → z ∈ x :: t →
                   (key z <= key x)%R) as Hmax.
  { intros x t z Hx [->|Hz]%elem_of_cons; [lra|].
    rewrite Forall_forall in Hx. by apply Hx. }
  intros H1. revert l2.
  induction H1 as [|x t1 Ht1 IH Hx]; intros l2 H2 Hf.
  - destruct l2 as [|y t2]; [done|].
    destruct (Hhas y t2 [] (Hf (key y))) as (z & Hz & _).
    by apply elem_of_nil in Hz.
  - destruct H2 as [|y t2 Ht2 Hy].
    + destruct (Hhas x t1 [] (eq_sym (Hf (key x)))) as (z & Hz & _).
      by apply elem_of_nil in Hz.
    + assert (key x = key y) as Hxy.
      { destruct (Hhas y t2 (x :: t1) (Hf (key y))) as (z & Hz & Hkz).
        destruct (Hhas x t1 (y :: t2) (eq_sym (Hf (key x)))) as (z' & Hz' & Hkz').
        pose proof (Hmax x t1 z Hx Hz). pose proof (Hmax y t2 z' Hy Hz'). lra. }
      pose proof (Hf (key x)) as Hhead.
      rewrite filter_cons_True, (filter_cons_True _ y) in Hhead by done.
      injection Hhead as <- Htail. f_equal. apply IH; [done|].
      intros v. destruct (decide (key x = v)) as [<-|Hne]; [done|].
      specialize (Hf v). by rewrite !filter_cons_False in Hf.
Qed.
End ArraySortFacts.

(** ** Scores *)

Section Scores.
Local Open Scope R_scope.
Implicit Types (r : NormalizedCitation) (q text : string) (terms : list string).

(** A [forEach] that adds [w] per matching term adds [w] times their
    number. *)
Lemma forEach_term_count (w : R) text terms (score : R) :
  fold_left (λ score term, if JS.includes text term then score + w else score)
            terms score
  = score + w * INR (countTermsIn text terms).
Proof.
  unfold countTermsIn. revert score.
  induction terms as [|t terms IH]; intros score; simpl.
  - lra.
  - rewrite IH. destruct (JS.includes text t); simpl length; [|done].
    rewrite S_INR. lra.
Qed.

Lemma countTermsIn_none text terms :
  (∀ t, t ∈ terms → JS.includes text t = false) → countTermsIn text terms = 0%nat.
Proof.
  unfold countTermsIn. induction terms as [|t terms IH]; intros Hno; simpl; [done|].
  rewrite (Hno t) by apply list_elem_of_here.
  apply IH. intros t' Ht'. apply Hno. by apply list_elem_of_further.
Qed.

(** The accumulator of [scoreOf], summed up. *)
Lemma scoreOf_sum currentYear q terms r :
  scoreOf currentYear q terms r
  = (if JS.includes (JS.toLowerCase (title r)) q then 10 else 0)
    + 3 * INR (countTermsIn (JS.toLowerCase (title r)) terms)
    + (if JS.includes (JS.toLowerCase (abstract r)) q then 5 else 0)
    + 1 * INR (countTermsIn (JS.toLowerCase (abstract r)) terms)
    + ln (IZR (Z.of_N (citationCount r) + 1)) * 0.5
    + (if recent currentYear (year r) then 3 else 0)
    + (if String.eqb (source r) "Semantic Scholar" then 0.5 else 0).
Proof.
  unfold scoreOf. cbv zeta. rewrite !forEach_term_count.
  repeat match goal with |- context [if ?b then _ else _] => destruct b end; lra.
Qed.

Lemma recent_yearWithinFive currentYear (y : option Z) :
  (5 < currentYear)%Z → recent currentYear y = yearWithinFive currentYear y.
Proof.
  intros Hclock. destruct y as [y|]; [|done]. simpl.
  destruct (Z.eqb_spec y 0) as [->|]; [|done]. simpl.
  symmetry. apply Z.leb_gt. lia.
Qed.

Lemma rankedScore_specScore currentYear q r :
  (5 < currentYear)%Z → rankedScore currentYear q r = specScore currentYear q r.
Proof.
  intros Hclock. unfold rankedScore, specScore. cbv zeta.
  by rewrite scoreOf_sum, recent_yearWithinFive.
Qed.

Lemma rankResults_unfold currentYear results q :
  rankResults currentYear results q
  = sort (λ a b, relevanceScore b - relevanceScore a)
         (scored currentYear q <$> results).
Proof. reflexivity. Qed.

Lemma exp_8_lower : 1001 < exp 8.
Proof.
  assert (5 / 4 < exp (1 / 4)) as H4
    by (pose proof (exp_ineq1 (1 / 4)); lra).
  assert (exp (1 / 2) = exp (1 / 4) * exp (1 / 4)) as E2
    by (rewrite <- exp_plus; f_equal; lra).
  assert (exp 1 = exp (1 / 2) * exp (1 / 2)) as E1
    by (rewrite <- exp_plus; f_equal; lra).
  assert (exp 2 = exp 1 * exp 1) as E02
    by (rewrite <- exp_plus; f_equal; lra).
  assert (exp 4 = exp 2 * exp 2) as E04
    by (rewrite <- exp_plus; f_equal; lra).
  assert (exp 8 = exp 4 * exp 4) as E08
    by (rewrite <- exp_plus; f_equal; lra).
  assert (25 / 16 < exp (1 / 2)) as H2 by (rewrite E2; nra).
  assert (2.44 < exp 1) as H1 by (rewrite E1; nra).
  assert (5.95 < exp 2) as H02 by (rewrite E02; nra).
  assert (35.4 < exp 4) as H04 by (rewrite E04; nra).
  rewrite E08. nra.
Qed.

Lemma ln_1001_bounds : 0 < ln 1001 < 8.
Proof.
  split.
  - rewrite <- ln_1. apply ln_increasing; lra.
  - apply exp_lt_inv. rewrite exp_ln by lra. apply exp_8_lower.
Qed.
End Scores.

(** ** Ranking *)

Section Ranking.
Local Open Scope R_scope.
Implicit Types (r : NormalizedCitation) (results : list NormalizedCitation).
Implicit Types (q : string) (currentYear : Z).

(** C5, the claim as stated fails: the query "AI" has no term longer than
    two characters, so the title "Fairness in AI" contains none of the
    query terms; it contains the full query as "AI for health" does, and
    two records that differ in these titles only both score 15 (10 for
    the title, 5 for the abstract "No abstract available", whose
    "available" contains the query too). *)
Lemma full_title_match_counterexample :
  queryTermsOf (JS.toLowerCase "AI") = []
  ∧ JS.includes (JS.toLowerCase (title aiForHealth)) (JS.toLowerCase "AI") = true
  ∧ JS.includes (JS.toLowerCase (title fairnessInAI)) (JS.toLowerCase "AI") = true
  ∧ rankedScore 2026 "AI" aiForHealth = 15
  ∧ rankedScore 2026 "AI" fairnessInAI = 15
  ∧ rankResults 2026 [aiForHealth; fairnessInAI] "AI"
    = [ {| citation := aiForHealth; relevanceScore := 15 |};
        {| citation := fairnessInAI; relevanceScore := 15 |} ].
Proof.
  assert (rankedScore 2026 "AI" aiForHealth = 15) as H1.
  { unfold rankedScore. rewrite scoreOf_sum.
    change (queryTermsOf (JS.toLowerCase "AI")) with (@nil string).
    change (JS.includes (JS.toLowerCase (title aiForHealth)) (JS.toLowerCase "AI"))
      with true.
    simpl. change (IZR (0 + 1)) with 1. rewrite ln_1. lra. }
  assert (rankedScore 2026 "AI" fairnessInAI = 15) as H2.
  { unfold rankedScore. rewrite scoreOf_sum.
    change (queryTermsOf (JS.toLowerCase "AI")) with (@nil string).
    change (JS.includes (JS.toLowerCase (title fairnessInAI)) (JS.toLowerCase "AI"))
      with true.
    simpl. change (IZR (0 + 1)) with 1. rewrite ln_1. lra. }
  split_and!; [reflexivity..|done|done|].
  rewrite rankResults_unfold. unfold scored. rewrite !fmap_cons, fmap_nil.
  rewrite H1, H2. simpl.
  destruct (Rlt_dec 0 (15 - 15)) as [Hlt|]; [lra|done].
Qed.

(** A title that contains the full query contains each of its terms. *)
Lemma full_query_includes_terms text q t :
  JS.includes text q = true → t ∈ queryTermsOf q → JS.includes text t = true.
Proof.
  intros Hq Ht. eapply includes_trans; [exact Hq|]. by apply queryTermsOf_includes.
Qed.

(** C5 (amended): for every query that has at least one query term and
    every two records with the same abstract, citationCount, year and
    source, if the lower-cased title of the first contains the full
    lower-cased query and the lower-cased title of the second contains
    none of the query terms, the first record's relevanceScore is at
    least 10 greater than the second's. (The first title then contains
    every term, so the exact difference is 10 plus 3 per term, 13 or
    more: the bound of 10 is not at the mercy of the last digit of a
    sum.) *)
Theorem full_title_match_scores_ten_higher currentYear q r1 r2 :
  abstract r1 = abstract r2 →
  citationCount r1 = citationCount r2 →
  year r1 = year r2 →
  source r1 = source r2 →
  queryTermsOf (JS.toLowerCase q) ≠ [] →
  JS.includes (JS.toLowerCase (title r1)) (JS.toLowerCase q) = true →
  (∀ t, t ∈ queryTermsOf (JS.toLowerCase q) →
        JS.includes (JS.toLowerCase (title r2)) t = false) →
  rankedScore currentYear q r2 + 10 <= rankedScore currentYear q r1.
Proof.
  intros Ha Hc Hy Hs Hne H1 Hterms.
  assert (JS.includes (JS.toLowerCase (title r2)) (JS.toLowerCase q) = false) as H2.
  { destruct (queryTermsOf (JS.toLowerCase q)) as [|t terms] eqn:Hq; [done|].
    destruct (JS.includes (JS.toLowerCase (title r2)) (JS.toLowerCase q)) eqn:Hin;
      [|done].
    assert (t ∈ queryTermsOf (JS.toLowerCase q)) as Ht
      by (rewrite Hq; apply list_elem_of_here).
    rewrite <- (Hterms t) by by rewrite <- Hq.
    symmetry. by apply (full_query_includes_terms _ (JS.toLowerCase q)). }
  unfold rankedScore.
  rewrite !scoreOf_sum, Ha, Hc, Hy, Hs, H1, H2.
  rewrite (countTermsIn_none _ _ Hterms). simpl INR.
  pose proof (pos_INR (countTermsIn (JS.toLowerCase (title r1))
                                    (queryTermsOf (JS.toLowerCase q)))).
  lra.
Qed.

Lemma full_title_match_scores_ten_higher_witness :
  rankedScore 2026 "deep learning" fooRecord + 10
  <= rankedScore 2026 "deep learning" deepLearningFirst.
Proof.
  apply (full_title_match_scores_ten_higher
           2026 "deep learning" deepLearningFirst fooRecord);
    try reflexivity.
  - discriminate.
  - intros t Ht. apply list_elem_of_In in Ht. simpl in Ht.
    destruct Ht as [<-|[<-|[]]]; reflexivity.
Defined.

Lemma scored_citation currentYear q (l : list ScoredCitation) results :
  l ≡ₚ scored currentYear q <$> results →
  scored currentYear q <$> (citation <$> l) = l.
Proof.
  intros Hl. rewrite <- list_fmap_compose.
  rewrite <- (list_fmap_id l) at 2. apply list_fmap_ext.
  intros i s Hs. apply list_elem_of_lookup_2 in Hs. rewrite Hl in Hs.
  by apply list_elem_of_fmap in Hs as (r & -> & _).
Qed.

(** C6: of two records that differ in citationCount only, 0 against
    1000, the second gets the strictly higher relevanceScore under every
    query (so also when neither title nor abstract matches it), the
    difference is ln(1001) * 0.5, which is below 4, and [rankResults]
    puts the 1000-citation record first whichever way they come in. *)
Theorem citation_count_log_damped currentYear q r :
  let r0 := withCitationCount 0 r in
  let r1000 := withCitationCount 1000 r in
  rankedScore currentYear q r1000 - rankedScore currentYear q r0 = ln 1001 * 0.5
  ∧ ln 1001 * 0.5 < 4
  ∧ rankedScore currentYear q r0 < rankedScore currentYear q r1000
  ∧ rankResults currentYear [r0; r1000] q
    = [scored currentYear q r1000; scored currentYear q r0]
  ∧ rankResults currentYear [r1000; r0] q
    = [scored currentYear q r1000; scored currentYear q r0].
Proof.
  intros r0 r1000. pose proof ln_1001_bounds as [Hpos Hlt].
  assert (rankedScore currentYear q r1000 - rankedScore currentYear q r0
          = ln 1001 * 0.5) as Hdiff.
  { unfold rankedScore. rewrite !scoreOf_sum. unfold r0, r1000. simpl.
    change (IZR (1000 + 1)) with 1001. change (IZR (0 + 1)) with 1.
    rewrite ln_1. lra. }
  split_and!; [done|lra|lra|..]; rewrite rankResults_unfold; simpl.
  - destruct (Rlt_dec 0 _) as [|Hn]; [done|]. exfalso. apply Hn. lra.
  - destruct (Rlt_dec 0 _) as [Hp|]; [|done]. exfalso. lra.
Qed.

(** C7: [rankResults] returns the scored records sorted by non-increasing
    relevanceScore, records of equal score in their input order. Its
    output is a function of the record list, the query and the current
    year only; it is the one arrangement of the scored records that is
    sorted and keeps ties in input order, so every run returns it; and
    ranking its own output again changes nothing. *)
Theorem rankResults_sorted_stable currentYear results q :
  let out := rankResults currentYear results q in
  out ≡ₚ scored currentYear q <$> results
  ∧ StronglySorted (λ a b, relevanceScore b <= relevanceScore a) out
  ∧ (∀ v : R,
       filter (λ s, relevanceScore s = v) out
       = filter (λ s, relevanceScore s = v) (scored currentYear q <$> results))
  ∧ (∀ currentYear' results' q',
       currentYear' = currentYear → results' = results → q' = q →
       rankResults currentYear' results' q' = out)
  ∧ (∀ out' : list ScoredCitation,
       StronglySorted (λ a b, relevanceScore b <= relevanceScore a) out' →
       (∀ v : R,
          filter (λ s, relevanceScore s = v) out'
          = filter (λ s, relevanceScore s = v) (scored currentYear q <$> results)) →
       out' = out)
  ∧ rankResults currentYear (citation <$> out) q = out.
Proof.
  intros out. unfold out. rewrite rankResults_unfold.
  assert (sort (λ a b, relevanceScore b - relevanceScore a)
               (scored currentYear q <$> results)
          ≡ₚ scored currentYear q <$> results) as Hperm by apply sort_perm.
  split_and!.
  - done.
  - apply (sort_sorted relevanceScore).
  - intros v. apply (sort_stable relevanceScore).
  - by intros ? ? ? -> -> ->.
  - intros out' Hsorted Hstable.
    apply (sorted_stable_unique relevanceScore);
      [done | apply (sort_sorted relevanceScore) |].
    intros v. by rewrite Hstable, (sort_stable relevanceScore).
  - rewrite rankResults_unfold, (scored_citation _ _ _ _ Hperm).
    apply (sort_sorted_id relevanceScore), (sort_sorted relevanceScore).
Qed.

Lemma rankResults_sorted_stable_witness :
  let out := rankResults 2026 [fooRecord; surveyRecord; barRecord] "deep learning" in
  out ≡ₚ scored 2026 "deep learning" <$> [fooRecord; surveyRecord; barRecord]
  ∧ StronglySorted (λ a b, relevanceScore b <= relevanceScore a) out
  ∧ (∀ v : R,
       filter (λ s, relevanceScore s = v) out
       = filter (λ s, relevanceScore s = v)
                (scored 2026 "deep learning"
                   <$> [fooRecord; surveyRecord; barRecord]))
  ∧ (∀ currentYear' results' q',
       currentYear' = 2026%Z → results' = [fooRecord; surveyRecord; barRecord]
       → q' = "deep learning" →
       rankResults currentYear' results' q' = out)
  ∧ (∀ out' : list ScoredCitation,
       StronglySorted (λ a b, relevanceScore b <= relevanceScore a) out' →
       (∀ v : R,
          filter (λ s, relevanceScore s = v) out'
          = filter (λ s, relevanceScore s = v)
                   (scored 2026 "deep learning"
                      <$> [fooRecord; surveyRecord; barRecord])) →
       out' = out)
  ∧ rankResults 2026 (citation <$> out) "deep learning" = out.
Proof.
  exact (rankResults_sorted_stable
           2026 [fooRecord; surveyRecord; barRecord] "deep learning").
Defined.
End Ranking.

(** ** The handler *)

Section Handler.
Implicit Types (env : Env) (req : Request) (query userId : option string).
Implicit Types (l : list NormalizedCitation).

Lemma searchSemanticScholar_source reply :
  Forall (λ r, source r = "Semantic Scholar") (searchSemanticScholar reply).
Proof.
  destruct reply as [| |[[|paper papers]|]]; simpl; try by constructor.
  constructor; [done|]. by apply Forall_fmap, Forall_true.
Qed.

Lemma searchCrossRef_source reply :
  Forall (λ r, source r = "CrossRef") (searchCrossRef reply).
Proof.
  destruct reply as [| |[[|item items]|]]; simpl; try by constructor.
  constructor; [done|]. by apply Forall_fmap, Forall_true.
Qed.

Lemma searchSemanticScholar_noItems reply :
  noItems reply = true → searchSemanticScholar reply = [].
Proof. by destruct reply as [| |[[|paper papers]|]]. Qed.

Lemma searchCrossRef_noItems reply :
  noItems reply = true → searchCrossRef reply = [].
Proof. by destruct reply as [| |[[|item items]|]]. Qed.

Lemma collectResults_settledEmpty s c :
  settledEmpty s = true → settledEmpty c = true → collectResults s c = [].
Proof. by destruct s as [[|]|], c as [[|]|]. Qed.

Lemma aggregated_app env e :
  aggregated env e
  = searchSemanticScholar (semanticScholarApi env e)
      ++ searchCrossRef (crossRefApi env e).
Proof. reflexivity. Qed.

(** What [handler] does with a request that carries a query. *)
Lemma handler_search env query userId :
  JS.truthy query = true →
  let q := default "" query in
  let e := expandedQueryOf env q in
  let all := aggregated env e in
  let unique := deduplicateResults all in
  let ranked := rankResults (fullYear env) unique q in
  handler env (Search query userId)
  = ((if JS.truthy (LOVABLE_API_KEY env) then [ExpandQuery q] else [])
       ++ [SearchSemanticScholar e; SearchCrossRef e]
       ++ (if decide (all = []) then []
           else [Deduplicate all; Rank unique q]
                  ++ (storeHistory env userId q e ranked).1),
     if decide (all = [])
     then {| status := 404; body := NoResultsBody noResultsMessage q e |}
     else {| status := 200;
             body := ResultsBody q e (take 10 ranked) (length ranked) |}).
Proof.
  intros Hq q e all unique ranked. unfold handler. rewrite Hq.
  fold q. unfold ranked, unique, all, e, expandedQueryOf, aggregated, storeHistory.
  destruct (JS.truthy (LOVABLE_API_KEY env));
    cbv beta iota zeta
        delta [mbind mret pipeline_bind pipeline_ret perform fst snd negb];
    (destruct (collectResults _ _) as [|r l] eqn:Hall;
     [reflexivity|]);
    rewrite decide_False by done;
    change (length (r :: l) =? 0)%nat with false; cbv iota;
    destruct (_ && _); simpl; reflexivity.
Qed.

Lemma rankResults_length currentYear l q :
  length (rankResults currentYear l q) = length l.
Proof. by rewrite rankResults_unfold, sort_length, length_fmap. Qed.

(** The only 200 response with a body is the one of a search that found
    something. *)
Lemma handler_status_200 env req :
  status (handler env req).2 = 200%Z → req ≠ Preflight →
  ∃ query userId,
    req = Search query userId ∧ JS.truthy query = true
    ∧ aggregated env (expandedQueryOf env (default "" query)) ≠ [].
Proof.
  destruct req as [|message|query userId]; [done|done|]. intros Hst _.
  exists query, userId. destruct (JS.truthy query) eqn:Hq.
  - rewrite (handler_search env query userId Hq) in Hst. cbv zeta in Hst.
    simpl in Hst. by case_decide.
  - unfold handler in Hst. by rewrite Hq in Hst.
Qed.

Lemma handler_results_nonempty env req q e results total :
  (handler env req).2
  = {| status := 200; body := ResultsBody q e results total |} →
  results ≠ [].
Proof.
  intros Hresp.
  destruct (handler_status_200 env req) as (query & userId & -> & Hq & Hall).
  { by rewrite Hresp. }
  { intros ->. discriminate Hresp. }
  rewrite (handler_search env query userId Hq) in Hresp. cbv zeta in Hresp.
  simpl in Hresp. rewrite decide_False in Hresp by done.
  injection Hresp as _ _ <- _. intros Hnil.
  apply (f_equal length) in Hnil.
  rewrite length_take, rankResults_length in Hnil. simpl in Hnil.
  apply deduplicateResults_nonempty in Hall.
  destruct (deduplicateResults _); [done|]. simpl in Hnil. lia.
Qed.

(** C4: when the call to every provider fails or carries no items, both
    adapters return the empty array, and the handler, having started
    nothing after the two searches, answers 404 with the original and
    the expanded query. A settled adapter call that was rejected or gave
    the empty array adds nothing to [allResults]; and no environment and
    no request make the handler answer 200 with an empty result
    array. *)
Theorem all_adapters_empty_is_404 env query userId :
  JS.truthy query = true →
  let q := default "" query in
  let e := expandedQueryOf env q in
  noItems (semanticScholarApi env e) = true →
  noItems (crossRefApi env e) = true →
  searchSemanticScholar (semanticScholarApi env e) = []
  ∧ searchCrossRef (crossRefApi env e) = []
  ∧ handler env (Search query userId)
    = ((if JS.truthy (LOVABLE_API_KEY env) then [ExpandQuery q] else [])
         ++ [SearchSemanticScholar e; SearchCrossRef e],
       {| status := 404; body := NoResultsBody noResultsMessage q e |})
  ∧ (∀ s c, settledEmpty s = true → settledEmpty c = true →
            collectResults s c = [])
  ∧ (∀ env' req' q' e' total,
       (handler env' req').2
       ≠ {| status := 200; body := ResultsBody q' e' [] total |}).
Proof.
  intros Hq q e Hss Hcr.
  apply searchSemanticScholar_noItems in Hss.
  apply searchCrossRef_noItems in Hcr.
  split_and!; [done|done| |apply collectResults_settledEmpty|].
  - rewrite (handler_search env query userId Hq). cbv zeta. fold q e.
    rewrite !decide_True by (by rewrite aggregated_app, Hss, Hcr).
    reflexivity.
  - intros env' req' q' e' total Hresp.
    by apply handler_results_nonempty in Hresp.
Qed.

Lemma all_adapters_empty_is_404_witness :
  searchSemanticScholar (semanticScholarApi failingEnv "transformer attention") = []
  ∧ searchCrossRef (crossRefApi failingEnv "transformer attention") = []
  ∧ handler failingEnv (Search (Some "attention") None)
    = ([ExpandQuery "attention"; SearchSemanticScholar "transformer attention";
        SearchCrossRef "transformer attention"],
       {| status := 404;
          body := NoResultsBody noResultsMessage "attention"
                                "transformer attention" |})
  ∧ (∀ s c, settledEmpty s = true → settledEmpty c = true →
            collectResults s c = [])
  ∧ (∀ env' req' q' e' total,
       (handler env' req').2
       ≠ {| status := 200; body := ResultsBody q' e' [] total |}).
Proof.
  apply (all_adapters_empty_is_404 failingEnv (Some "attention") None);
    reflexivity.
Defined.

(** C8: a request whose query is absent or empty is answered 400 at
    once; the handler has then performed no step at all: no expansion,
    no provider search, no deduplication, no ranking, no history
    write. *)
Theorem empty_query_is_400 env userId :
  handler env (Search None userId)
  = ([], {| status := 400; body := ErrorBody "Query is required" |})
  ∧ handler env (Search (Some "") userId)
    = ([], {| status := 400; body := ErrorBody "Query is required" |}).
Proof. split; reflexivity. Qed.

(** C9: a 200 response to anything but the CORS preflight carries a
    non-empty result array and a [totalFound] of at least 1. The
    handler deduplicates and ranks only after the check for no results,
    so on a non-empty list; [deduplicateResults] never empties a
    non-empty list; [totalFound] is the number of deduplicated records
    and [results] has min(totalFound, 10) elements. *)
Theorem success_is_never_empty env req :
  status (handler env req).2 = 200%Z → req ≠ Preflight →
  ∃ q e results totalFound,
    body (handler env req).2 = ResultsBody q e results totalFound
    ∧ results ≠ []
    ∧ (1 ≤ totalFound)%nat
    ∧ aggregated env e ≠ []
    ∧ totalFound = length (deduplicateResults (aggregated env e))
    ∧ length results = totalFound `min` 10
    ∧ (∃ before after,
         (handler env req).1
         = before
             ++ [Deduplicate (aggregated env e);
                 Rank (deduplicateResults (aggregated env e)) q]
             ++ after
         ∧ (∀ l, (Deduplicate l ∉ before) ∧ (Rank l q ∉ before)))
    ∧ (∀ l, l ≠ [] → deduplicateResults l ≠ []).
Proof.
  intros Hst Hreq.
  destruct (handler_status_200 env req Hst Hreq)
    as (query & userId & -> & Hq & Hall).
  rewrite (handler_search env query userId Hq). cbv zeta.
  set (q := default "" query) in *. set (e := expandedQueryOf env q) in *.
  rewrite !decide_False by done. simpl.
  pose proof (deduplicateResults_nonempty _ Hall) as Hunique.
  exists q, e. eexists _, _. split; [reflexivity|].
  rewrite length_take, rankResults_length.
  split_and!.
  - intros Hnil. apply (f_equal length) in Hnil.
    rewrite length_take, rankResults_length in Hnil.
    destruct (deduplicateResults (aggregated env e)); [done|].
    simpl in Hnil. lia.
  - destruct (deduplicateResults (aggregated env e)); [done|]. simpl. lia.
  - done.
  - done.
  - lia.
  - exists ((if JS.truthy (LOVABLE_API_KEY env) then [ExpandQuery q] else [])
              ++ [SearchSemanticScholar e; SearchCrossRef e]).
    eexists. split; [by rewrite <- app_assoc|].
    intros l. destruct (JS.truthy (LOVABLE_API_KEY env)); simpl;
      rewrite !elem_of_cons, !elem_of_nil; naive_solver.
  - apply deduplicateResults_nonempty.
Qed.

Lemma success_is_never_empty_witness :
  ∃ q e results totalFound,
    body (handler sampleEnv (Search (Some "attention") None)).2
    = ResultsBody q e results totalFound
    ∧ results ≠ []
    ∧ (1 ≤ totalFound)%nat
    ∧ aggregated sampleEnv e ≠ []
    ∧ totalFound = length (deduplicateResults (aggregated sampleEnv e))
    ∧ length results = totalFound `min` 10
    ∧ (∃ before after,
         (handler sampleEnv (Search (Some "attention") None)).1
         = before
             ++ [Deduplicate (aggregated sampleEnv e);
                 Rank (deduplicateResults (aggregated sampleEnv e)) q]
             ++ after
         ∧ (∀ l, (Deduplicate l ∉ before) ∧ (Rank l q ∉ before)))
    ∧ (∀ l, l ≠ [] → deduplicateResults l ≠ []).
Proof.
  apply (success_is_never_empty sampleEnv (Search (Some "attention") None)).
  - reflexivity.
  - discriminate.
Defined.

(** C10: [allResults] is the Semantic Scholar records followed by the
    CrossRef records, whatever order the two calls settle in, and that
    list is what the handler deduplicates. So when a CrossRef record has
    the identity key of a Semantic Scholar record, the one record of that
    key that [deduplicateResults] keeps is a Semantic Scholar record (the
    first of that key) and the CrossRef record is dropped; when one
    Semantic Scholar record only has the key, it is the one kept. *)
Theorem semantic_scholar_record_wins env e a b :
  let ss := searchSemanticScholar (semanticScholarApi env e) in
  let cr := searchCrossRef (crossRefApi env e) in
  a ∈ ss → b ∈ cr → identityKey a = identityKey b →
  aggregated env e = ss ++ cr
  ∧ Forall (λ r, source r = "Semantic Scholar") ss
  ∧ Forall (λ r, source r = "CrossRef") cr
  ∧ (∀ query userId l,
       JS.truthy query = true →
       e = expandedQueryOf env (default "" query) →
       Deduplicate l ∈ (handler env (Search query userId)).1 →
       l = ss ++ cr)
  ∧ (∃ kept,
       kept ∈ ss ∧ source kept = "Semantic Scholar"
       ∧ filter (λ r, identityKey r = identityKey a) (deduplicateResults (ss ++ cr))
         = [kept]
       ∧ ((∀ a', a' ∈ ss → identityKey a' = identityKey a → a' = a) →
          kept = a))
  ∧ b ∉ deduplicateResults (ss ++ cr).
Proof.
  intros ss cr Ha Hb Hkey.
  pose proof (searchSemanticScholar_source (semanticScholarApi env e)) as Hss.
  pose proof (searchCrossRef_source (crossRefApi env e)) as Hcr.
  fold ss in Hss. fold cr in Hcr. rewrite Forall_forall in Hss, Hcr.
  assert (∃ kept,
            kept ∈ ss ∧ identityKey kept = identityKey a
            ∧ filter (λ r, identityKey r = identityKey a)
                     (deduplicateResults (ss ++ cr)) = [kept])
    as (kept & Hkept & Hk & Hfilter).
  { rewrite deduplicateResults_by_key, filter_app.
    destruct (filter (λ r, identityKey r = identityKey a) ss)
      as [|a' f] eqn:Hf.
    - exfalso. eapply filter_nil_not_elem_of; [exact Hf| |exact Ha]. done.
    - assert (a' ∈ filter (λ r, identityKey r = identityKey a) ss) as Ha'
        by (rewrite Hf; apply list_elem_of_here).
      apply list_elem_of_filter in Ha' as [Hk Hin].
      exists a'. split_and!; [done..|]. simpl. by rewrite take_0. }
  split_and!; [done| by apply Forall_forall | by apply Forall_forall | | |].
  - intros query userId l Hq -> Hl.
    rewrite (handler_search env query userId Hq) in Hl. cbv zeta in Hl.
    cbn [fst] in Hl.
    apply elem_of_app in Hl as [Hl|Hl];
      [|apply elem_of_app in Hl as [Hl|Hl]].
    + destruct (JS.truthy (LOVABLE_API_KEY env));
        [by apply list_elem_of_singleton in Hl | by apply elem_of_nil in Hl].
    + rewrite !elem_of_cons, elem_of_nil in Hl. naive_solver.
    + case_decide; [by apply elem_of_nil in Hl|].
      apply elem_of_app in Hl as [Hl|Hl].
      * rewrite !elem_of_cons, elem_of_nil in Hl.
        destruct Hl as [Hl|[Hl|[]]]; [|done]. by injection Hl as ->.
      * unfold storeHistory in Hl. destruct (_ && _); simpl in Hl.
        -- by apply list_elem_of_singleton in Hl.
        -- by apply elem_of_nil in Hl.
  - exists kept. split_and!; [done|by apply Hss|done|].
    intros Honly. by apply Honly.
  - intros Hin.
    assert (b ∈ filter (λ r, identityKey r = identityKey a)
                       (deduplicateResults (ss ++ cr))) as Hbf
      by (apply list_elem_of_filter; split; [by symmetry | done]).
    rewrite Hfilter in Hbf. apply list_elem_of_singleton in Hbf as ->.
    specialize (Hss _ Hkept). specialize (Hcr _ Hb). congruence.
Qed.

Lemma semantic_scholar_record_wins_witness :
  let ss := searchSemanticScholar (semanticScholarApi sampleEnv "attention") in
  let cr := searchCrossRef (crossRefApi sampleEnv "attention") in
  let a := normalizeSemantic samplePaper in
  let b := normalizeCrossRef sampleItem in
  aggregated sampleEnv "attention" = ss ++ cr
  ∧ Forall (λ r, source r = "Semantic Scholar") ss
  ∧ Forall (λ r, source r = "CrossRef") cr
  ∧ (∀ query userId l,
       JS.truthy query = true →
       "attention" = expandedQueryOf sampleEnv (default "" query) →
       Deduplicate l ∈ (handler sampleEnv (Search query userId)).1 →
       l = ss ++ cr)
  ∧ (∃ kept,
       kept ∈ ss ∧ source kept = "Semantic Scholar"
       ∧ filter (λ r, identityKey r = identityKey a) (deduplicateResults (ss ++ cr))
         = [kept]
       ∧ ((∀ a', a' ∈ ss → identityKey a' = identityKey a → a' = a) →
          kept = a))
  ∧ b ∉ deduplicateResults (ss ++ cr).
Proof.
  apply (semantic_scholar_record_wins sampleEnv "attention"
           (normalizeSemantic samplePaper) (normalizeCrossRef sampleItem)).
  - apply list_elem_of_here.
  - apply list_elem_of_here.
  - reflexivity.
Defined.
End Handler.

(** ** The score, end to end *)

Section Pipeline.
Local Open Scope R_scope.
Implicit Types (r : NormalizedCitation) (results : list NormalizedCitation).
Implicit Types (q : string) (currentYear : Z).

(** C1: for every list of records and every query, [rankResults] gives
    each record, independently of the others, the score that is the sum
    of +10 / +3 per term / +5 / +1 per term / ln(citationCount + 1) * 0.5
    / +3 / +0.5 as the specification lists them, with the terms taken
    from the lower-cased query, and sorts the scored records; nothing is
    normalized. The query it is given by the handler is the original one
    of the request, while the providers are searched with the expanded
    one. The wall clock is taken to read a year after 5 (a record of
    year 0 is treated as having no year by the code, which only shows
    when the clock reads 5 or less). *)
Theorem rankResults_scores currentYear results q :
  (5 < currentYear)%Z →
  let specScored r :=
    {| citation := r; relevanceScore := specScore currentYear q r |} in
  rankResults currentYear results q
  = sort byScoreDescending (specScored <$> results)
  ∧ rankResults currentYear results q ≡ₚ specScored <$> results
  ∧ (∀ env userId,
       let e := expandedQueryOf env q in
       let unique := deduplicateResults (aggregated env e) in
       q ≠ "" → aggregated env e ≠ [] →
       Rank unique q ∈ (handler env (Search (Some q) userId)).1
       ∧ SearchSemanticScholar e ∈ (handler env (Search (Some q) userId)).1
       ∧ SearchCrossRef e ∈ (handler env (Search (Some q) userId)).1
       ∧ body (handler env (Search (Some q) userId)).2
         = ResultsBody q e (take 10 (rankResults (fullYear env) unique q))
                       (length unique)).
Proof.
  intros Hclock specScored.
  assert (rankResults currentYear results q
          = sort byScoreDescending (specScored <$> results)) as Heq.
  { rewrite rankResults_unfold. f_equal. apply list_fmap_ext.
    intros i r _. unfold scored, specScored.
    by rewrite rankedScore_specScore. }
  split_and!; [done| rewrite Heq; apply sort_perm |].
  intros env userId e unique Hq Hall.
  assert (JS.truthy (Some q) = true) as Htruthy.
  { simpl. by destruct (String.eqb_spec q ""). }
  rewrite (handler_search env (Some q) userId Htruthy). cbv zeta. simpl default.
  fold e. fold unique. rewrite !decide_False by done. cbn [fst snd body].
  rewrite rankResults_length. split_and!; [| | |done].
  - apply elem_of_app. right. apply elem_of_app. right.
    apply elem_of_app. left. apply list_elem_of_further, list_elem_of_here.
  - apply elem_of_app. right. apply elem_of_app. left. apply list_elem_of_here.
  - apply elem_of_app. right. apply elem_of_app. left.
    apply list_elem_of_further, list_elem_of_here.
Qed.

Lemma rankResults_scores_witness :
  let q := "Deep learning surveys" in
  let specScored r :=
    {| citation := r; relevanceScore := specScore 2026 q r |} in
  rankResults 2026 [surveyRecord; fooRecord] q
  = sort byScoreDescending (specScored <$> [surveyRecord; fooRecord])
  ∧ rankResults 2026 [surveyRecord; fooRecord] q
    ≡ₚ specScored <$> [surveyRecord; fooRecord]
  ∧ (∀ env userId,
       let e := expandedQueryOf env q in
       let unique := deduplicateResults (aggregated env e) in
       q ≠ "" → aggregated env e ≠ [] →
       Rank unique q ∈ (handler env (Search (Some q) userId)).1
       ∧ SearchSemanticScholar e ∈ (handler env (Search (Some q) userId)).1
       ∧ SearchCrossRef e ∈ (handler env (Search (Some q) userId)).1
       ∧ body (handler env (Search (Some q) userId)).2
         = ResultsBody q e (take 10 (rankResults (fullYear env) unique q))
                       (length unique)).
Proof.
  apply (rankResults_scores 2026 [surveyRecord; fooRecord]
                            "Deep learning surveys").
  lia.
Defined.
End Pipeline.

(** * Further properties *)

(** ** Deduplication, as a whole *)

Section DedupMore.
Implicit Types (l : list NormalizedCitation) (r : NormalizedCitation).

Lemma deduplicateResults_keys l k :
  k ∈ identityKey <$> deduplicateResults l ↔ k ∈ identityKey <$> l.
Proof.
  induction l as [|r l IH] using rev_ind; [done|].
  rewrite deduplicateResults_snoc, !fmap_app, !elem_of_app, IH.
  case_decide as Hin; simpl; [|done].
  rewrite elem_of_nil, list_elem_of_singleton. naive_solver.
Qed.

Lemma deduplicateResults_fixed l :
  NoDup (identityKey <$> l) → deduplicateResults l = l.
Proof.
  induction l as [|r l IH] using rev_ind; [done|].
  rewrite fmap_app, NoDup_app. intros (Hl & Hdisj & _).
  rewrite deduplicateResults_snoc, IH by done.
  rewrite decide_False; [done|].
  intros Hin. apply (Hdisj _ Hin). apply list_elem_of_here.
Qed.

Lemma deduplicateResults_keys_NoDup l :
  NoDup (identityKey <$> deduplicateResults l).
Proof.
  induction l as [|r l IH] using rev_ind; [constructor|].
  rewrite deduplicateResults_snoc, fmap_app.
  case_decide as Hin; simpl; [by rewrite app_nil_r|].
  apply NoDup_app. split_and!; [done| |apply NoDup_singleton].
  intros k Hk Hr. apply list_elem_of_singleton in Hr. subst k.
  apply Hin. by apply deduplicateResults_keys.
Qed.

(** X1: the records [deduplicateResults] returns have pairwise different
    identity keys, they are no more than the input records, and every
    identity key of the input is still the key of a returned record. *)
Theorem deduplicateResults_distinct_keys l :
  NoDup (identityKey <$> deduplicateResults l)
  ∧ (length (deduplicateResults l) ≤ length l)%nat
  ∧ (∀ k, k ∈ identityKey <$> deduplicateResults l ↔ k ∈ identityKey <$> l).
Proof.
  split_and!.
  - apply deduplicateResults_keys_NoDup.
  - apply sublist_length, deduplicateResults_sublist.
  - apply deduplicateResults_keys.
Qed.

(** X2: deduplicating twice is deduplicating once, and the lists that
    [deduplicateResults] returns unchanged are those whose identity keys
    are pairwise different. *)
Theorem deduplicateResults_idempotent l :
  deduplicateResults (deduplicateResults l) = deduplicateResults l
  ∧ (deduplicateResults l = l ↔ NoDup (identityKey <$> l)).
Proof.
  pose proof (deduplicateResults_keys_NoDup l) as Hnodup.
  split; [by apply deduplicateResults_fixed|].
  split; [intros Heq; by rewrite Heq in Hnodup | apply deduplicateResults_fixed].
Qed.

(** X3: a record whose identity key no earlier record has is kept,
    whatever follows it. *)
Theorem deduplicateResults_keeps_new_key l1 r l2 :
  identityKey r ∉ identityKey <$> l1 →
  r ∈ deduplicateResults (l1 ++ r :: l2).
Proof.
  intros Hnew.
  assert (filter (λ x, identityKey x = identityKey r)
                 (deduplicateResults (l1 ++ r :: l2)) = [r]) as Hf.
  { rewrite deduplicateResults_by_key, filter_app, filter_cons_True by done.
    destruct (filter (λ x, identityKey x = identityKey r) l1) as [|e f] eqn:He;
      [simpl; by rewrite take_0|].
    exfalso. apply Hnew.
    assert (e ∈ filter (λ x, identityKey x = identityKey r) l1) as Hin
      by (rewrite He; apply list_elem_of_here).
    apply list_elem_of_filter in Hin as [Hk Hin].
    apply list_elem_of_fmap. by exists e. }
  assert (r ∈ filter (λ x, identityKey x = identityKey r)
                     (deduplicateResults (l1 ++ r :: l2))) as Hin
    by (rewrite Hf; apply list_elem_of_here).
  by apply list_elem_of_filter in Hin as [_ ?].
Qed.

Lemma deduplicateResults_keeps_new_key_witness :
  surveyRecord ∈ deduplicateResults ([fooRecord] ++ surveyRecord :: [barRecord]).
Proof.
  apply (deduplicateResults_keeps_new_key [fooRecord] surveyRecord [barRecord]).
  by intros ?%list_elem_of_singleton.
Defined.
End DedupMore.

(** ** Letter case and white space *)

Section Normalisation.
Local Open Scope string_scope.
Implicit Types (s t p pad cur : string) (c : ascii).

Lemma lowerChar_idempotent c : JS.lowerChar (JS.lowerChar c) = JS.lowerChar c.
Proof. destruct c as [[] [] [] [] [] [] [] []]; reflexivity. Qed.

Lemma isWhiteSpace_lowerChar c :
  JS.isWhiteSpace (JS.lowerChar c) = JS.isWhiteSpace c.
Proof. destruct c as [[] [] [] [] [] [] [] []]; reflexivity. Qed.

Lemma toLowerCase_idempotent s :
  JS.toLowerCase (JS.toLowerCase s) = JS.toLowerCase s.
Proof.
  induction s as [|c s IH]; simpl; [done|]. by rewrite lowerChar_idempotent, IH.
Qed.

Lemma toLowerCase_app s t :
  JS.toLowerCase (s ++ t) = JS.toLowerCase s ++ JS.toLowerCase t.
Proof.
  induction s as [|c s IH]; [done|].
  rewrite ?append_cons. simpl. by rewrite ?append_cons, IH.
Qed.

Lemma allWhiteSpace_toLowerCase s :
  allWhiteSpace (JS.toLowerCase s) = allWhiteSpace s.
Proof.
  induction s as [|c s IH]; simpl; [done|]. by rewrite isWhiteSpace_lowerChar, IH.
Qed.

Lemma trimStart_pad pad s :
  allWhiteSpace pad = true → JS.trimStart (pad ++ s) = JS.trimStart s.
Proof.
  induction pad as [|c pad IH]; [done|]. simpl.
  intros [Hc Hpad]%andb_true_iff. rewrite ?append_cons. simpl. rewrite Hc. auto.
Qed.

Lemma trimEnd_all_white pad : allWhiteSpace pad = true → JS.trimEnd pad = "".
Proof.
  induction pad as [|c pad IH]; [done|]. simpl.
  intros [Hc Hpad]%andb_true_iff. by rewrite IH, Hc.
Qed.

Lemma trimEnd_pad s pad :
  allWhiteSpace pad = true → JS.trimEnd (s ++ pad) = JS.trimEnd s.
Proof.
  intros Hpad. induction s as [|c s IH].
  - by apply trimEnd_all_white.
  - rewrite ?append_cons. simpl. by rewrite IH.
Qed.

Lemma trim_pad pad s pad' :
  allWhiteSpace pad = true → allWhiteSpace pad' = true →
  JS.trim (pad ++ s ++ pad') = JS.trim s.
Proof.
  intros Hpad Hpad'. unfold JS.trim. rewrite trimStart_pad by done.
  induction s as [|c s IH].
  - rewrite append_empty_l.
    replace pad' with (pad' ++ "") at 1
      by (clear; induction pad' as [|c p IH]; [done|by rewrite append_cons, IH]).
    rewrite trimStart_pad by done. done.
  - rewrite ?append_cons. simpl. destruct (JS.isWhiteSpace c); [done|].
    rewrite <- append_cons. by apply trimEnd_pad.
Qed.

(** X4: for a record without DOI the identity key does not see the letter
    case of the title nor white space around it: such variants of one
    title give the same key, and [deduplicateResults] drops the later
    one. *)
Theorem identityKey_ignores_case_and_padding r t pad pad' :
  JS.truthy (doi r) = false →
  allWhiteSpace pad = true → allWhiteSpace pad' = true →
  identityKey (withTitle (pad ++ t ++ pad') r) = identityKey (withTitle t r)
  ∧ identityKey (withTitle (JS.toLowerCase t) r) = identityKey (withTitle t r)
  ∧ deduplicateResults
      [withTitle t r; withTitle (pad ++ JS.toLowerCase t ++ pad') r]
    = [withTitle t r].
Proof.
  intros Hdoi Hpad Hpad'.
  assert (∀ t', identityKey (withTitle t' r) = JS.trim (JS.toLowerCase t')) as Hkey
    by (intros t'; by rewrite identityKey_no_doi).
  assert (∀ t', identityKey (withTitle (pad ++ t' ++ pad') r)
                = identityKey (withTitle t' r)) as Hpadded.
  { intros t'. rewrite !Hkey, !toLowerCase_app.
    apply trim_pad; by rewrite allWhiteSpace_toLowerCase. }
  split_and!; [done| by rewrite !Hkey, toLowerCase_idempotent |].
  pose proof (deduplicateResults_snoc [] (withTitle t r)) as Hone.
  pose proof (deduplicateResults_snoc
                [withTitle t r] (withTitle (pad ++ JS.toLowerCase t ++ pad') r))
    as Htwo.
  simpl in Hone, Htwo. rewrite Htwo, Hone.
  rewrite decide_True; [done|]. apply list_elem_of_singleton.
  by rewrite Hpadded, !Hkey, toLowerCase_idempotent.
Qed.

Lemma identityKey_ignores_case_and_padding_witness :
  identityKey (withTitle ("  " ++ "Deep Learning" ++ " ") untitledRecord)
  = identityKey (withTitle "Deep Learning" untitledRecord)
  ∧ identityKey (withTitle (JS.toLowerCase "Deep Learning") untitledRecord)
    = identityKey (withTitle "Deep Learning" untitledRecord)
  ∧ deduplicateResults
      [withTitle "Deep Learning" untitledRecord;
       withTitle ("  " ++ JS.toLowerCase "Deep Learning" ++ " ") untitledRecord]
    = [withTitle "Deep Learning" untitledRecord].
Proof.
  apply (identityKey_ignores_case_and_padding
           untitledRecord "Deep Learning" "  " " "); reflexivity.
Defined.

Lemma hasWhiteSpace_snoc cur c :
  hasWhiteSpace cur = false → JS.isWhiteSpace c = false →
  hasWhiteSpace (cur ++ String c "") = false.
Proof.
  induction cur as [|a cur IH]; simpl.
  - intros _ Hc. rewrite ?append_empty_l. simpl. by rewrite Hc.
  - intros [Ha Hcur]%orb_false_iff Hc. rewrite ?append_cons. simpl.
    by rewrite Ha, IH.
Qed.

Lemma splitFrom_no_whiteSpace s inSep cur t :
  hasWhiteSpace cur = false → t ∈ JS.splitFrom inSep cur s →
  hasWhiteSpace t = false.
Proof.
  revert inSep cur. induction s as [|c s IH]; intros inSep cur Hcur; simpl.
  - by intros ->%list_elem_of_singleton.
  - destruct (JS.isWhiteSpace c) eqn:Hc.
    + destruct inSep.
      * by apply IH.
      * intros [->|Ht]%elem_of_cons; [done|]. by apply (IH true "").
    + apply IH. by apply hasWhiteSpace_snoc.
Qed.

Lemma splitFrom_one_word s cur :
  hasWhiteSpace s = false → JS.splitFrom false cur s = [cur ++ s].
Proof.
  revert cur. induction s as [|c s IH]; intros cur; simpl.
  - intros _. f_equal. clear. induction cur as [|a cur IH]; [done|].
    by rewrite append_cons, <- IH.
  - intros [Hc Hs]%orb_false_iff. rewrite Hc, IH by done.
    by rewrite append_assoc, append_cons, append_empty_l.
Qed.

(** X5: every query term is longer than two code units, contains no
    white space and occurs in the lower-cased query. *)
Theorem queryTermsOf_terms q t :
  t ∈ queryTermsOf q →
  (2 < String.length t)%nat ∧ hasWhiteSpace t = false ∧ JS.includes q t = true.
Proof.
  intros Ht. split_and!; [| |by apply queryTermsOf_includes].
  - unfold queryTermsOf in Ht. apply list_elem_of_In, filter_In in Ht as [_ Ht].
    by apply Nat.ltb_lt.
  - unfold queryTermsOf, JS.splitWhitespace in Ht.
    apply list_elem_of_In, filter_In in Ht as [Ht _].
    apply list_elem_of_In in Ht. by apply (splitFrom_no_whiteSpace q false "").
Qed.

Lemma queryTermsOf_terms_witness :
  (2 < String.length "learning")%nat ∧ hasWhiteSpace "learning" = false
  ∧ JS.includes "machine learning ethics" "learning" = true.
Proof.
  apply (queryTermsOf_terms "machine learning ethics" "learning").
  apply list_elem_of_further, list_elem_of_here.
Defined.

(** X6: a query of one word (no white space in it) has that word as its
    only term when the word is longer than two code units, and no term at
    all when it is shorter. *)
Theorem queryTermsOf_one_word q :
  hasWhiteSpace q = false →
  queryTermsOf q = if (2 <? String.length q)%nat then [q] else [].
Proof.
  intros Hq. unfold queryTermsOf, JS.splitWhitespace.
  rewrite splitFrom_one_word, append_empty_l by done. simpl.
  by destruct (2 <? String.length q)%nat.
Qed.

Lemma queryTermsOf_one_word_witness :
  queryTermsOf "ai" = if (2 <? String.length "ai")%nat then ["ai"] else [].
Proof. apply (queryTermsOf_one_word "ai"). reflexivity. Defined.
End Normalisation.

(** ** The score, signal by signal *)

Section ScoreMore.
Local Open Scope R_scope.
Implicit Types (r : NormalizedCitation) (results : list NormalizedCitation).
Implicit Types (q : string) (currentYear : Z).

Lemma countTermsIn_le text terms :
  (countTermsIn text terms ≤ length terms)%nat.
Proof.
  unfold countTermsIn. induction terms as [|t terms IH]; simpl; [done|].
  destruct (JS.includes text t); simpl; lia.
Qed.

Lemma countTermsIn_all text terms :
  (∀ t, t ∈ terms → JS.includes text t = true) →
  countTermsIn text terms = length terms.
Proof.
  unfold countTermsIn. induction terms as [|t terms IH]; intros Hall; simpl; [done|].
  rewrite (Hall t) by apply list_elem_of_here. simpl. f_equal.
  apply IH. intros t' Ht'. apply Hall. by apply list_elem_of_further.
Qed.

Lemma ln_citations_nonneg (c : N) : 0 <= ln (IZR (Z.of_N c + 1)).
Proof.
  assert (1 <= IZR (Z.of_N c + 1)) as [Hlt|<-] by (apply IZR_le; lia).
  - rewrite <- ln_1. left. apply ln_increasing; lra.
  - rewrite ln_1. lra.
Qed.

Lemma ln_citations_increasing (c1 c2 : N) :
  (c1 < c2)%N → ln (IZR (Z.of_N c1 + 1)) < ln (IZR (Z.of_N c2 + 1)).
Proof.
  intros Hc. apply ln_increasing.
  - apply IZR_lt. lia.
  - apply IZR_lt. lia.
Qed.

(** X7: a relevanceScore is never negative, and it stays below 19 plus 4
    per query term plus half the logarithm of the citation count plus
    one. *)
Theorem rankedScore_bounds currentYear q r :
  0 <= rankedScore currentYear q r
  ∧ rankedScore currentYear q r
    < 19 + 4 * INR (length (queryTermsOf (JS.toLowerCase q)))
      + ln (IZR (Z.of_N (citationCount r) + 1)) * 0.5.
Proof.
  unfold rankedScore. rewrite scoreOf_sum.
  pose proof (ln_citations_nonneg (citationCount r)).
  set (terms := queryTermsOf (JS.toLowerCase q)).
  pose proof (pos_INR (countTermsIn (JS.toLowerCase (title r)) terms)).
  pose proof (pos_INR (countTermsIn (JS.toLowerCase (abstract r)) terms)).
  pose proof (le_INR _ _ (countTermsIn_le (JS.toLowerCase (title r)) terms)).
  pose proof (le_INR _ _ (countTermsIn_le (JS.toLowerCase (abstract r)) terms)).
  split;
    repeat match goal with |- context [if ?b then _ else _] => destruct b end; lra.
Qed.

(** X8: of two records that differ in citationCount only, one never
    cited and one cited at least once, the cited one has the strictly
    higher relevanceScore and is ranked first, whichever way the two come
    in. *)
Theorem cited_outranks_uncited currentYear q r (c : N) :
  (0 < c)%N →
  let uncited := withCitationCount 0 r in
  let cited := withCitationCount c r in
  rankedScore currentYear q uncited < rankedScore currentYear q cited
  ∧ rankResults currentYear [uncited; cited] q
    = [scored currentYear q cited; scored currentYear q uncited]
  ∧ rankResults currentYear [cited; uncited] q
    = [scored currentYear q cited; scored currentYear q uncited].
Proof.
  intros Hc uncited cited. pose proof (ln_citations_increasing 0 c Hc) as Hln.
  change (IZR (Z.of_N 0 + 1)) with 1 in Hln. rewrite ln_1 in Hln.
  assert (rankedScore currentYear q uncited < rankedScore currentYear q cited)
    as Hlt.
  { unfold rankedScore. rewrite !scoreOf_sum. unfold uncited, cited. simpl.
    change (IZR (0 + 1)) with 1. rewrite ln_1. lra. }
  split_and!; [done|..]; rewrite rankResults_unfold; simpl.
  - destruct (Rlt_dec 0 _) as [|Hn]; [done|]. exfalso. apply Hn. lra.
  - destruct (Rlt_dec 0 _) as [Hp|]; [|done]. exfalso. lra.
Qed.

Lemma cited_outranks_uncited_witness :
  let uncited := withCitationCount 0 surveyRecord in
  let cited := withCitationCount 1 surveyRecord in
  rankedScore 2026 "deep learning" uncited < rankedScore 2026 "deep learning" cited
  ∧ rankResults 2026 [uncited; cited] "deep learning"
    = [scored 2026 "deep learning" cited; scored 2026 "deep learning" uncited]
  ∧ rankResults 2026 [cited; uncited] "deep learning"
    = [scored 2026 "deep learning" cited; scored 2026 "deep learning" uncited].
Proof.
  apply (cited_outranks_uncited 2026 "deep learning" surveyRecord 1).
  reflexivity.
Defined.

(** X9: of two records that differ in source only, one from
    "Semantic Scholar" and one from any other source, the first has the
    strictly higher relevanceScore and is ranked first, whichever way the
    two come in. *)
Theorem semantic_scholar_source_preferred currentYear q r (other : string) :
  other ≠ "Semantic Scholar" →
  let preferred := withSource "Semantic Scholar" r in
  let plain := withSource other r in
  rankedScore currentYear q plain < rankedScore currentYear q preferred
  ∧ rankResults currentYear [plain; preferred] q
    = [scored currentYear q preferred; scored currentYear q plain]
  ∧ rankResults currentYear [preferred; plain] q
    = [scored currentYear q preferred; scored currentYear q plain].
Proof.
  intros Hother preferred plain.
  assert (rankedScore currentYear q plain < rankedScore currentYear q preferred)
    as Hlt.
  { unfold rankedScore. rewrite !scoreOf_sum. unfold preferred, plain. simpl.
    destruct (String.eqb_spec other "Semantic Scholar"); [done|]. lra. }
  split_and!; [done|..]; rewrite rankResults_unfold; simpl.
  - destruct (Rlt_dec 0 _) as [|Hn]; [done|]. exfalso. apply Hn. lra.
  - destruct (Rlt_dec 0 _) as [Hp|]; [|done]. exfalso. lra.
Qed.

Lemma semantic_scholar_source_preferred_witness :
  let preferred := withSource "Semantic Scholar" surveyRecord in
  let plain := withSource "CrossRef" surveyRecord in
  rankedScore 2026 "deep learning" plain
  < rankedScore 2026 "deep learning" preferred
  ∧ rankResults 2026 [plain; preferred] "deep learning"
    = [scored 2026 "deep learning" preferred; scored 2026 "deep learning" plain]
  ∧ rankResults 2026 [preferred; plain] "deep learning"
    = [scored 2026 "deep learning" preferred; scored 2026 "deep learning" plain].
Proof.
  apply (semantic_scholar_source_preferred
           2026 "deep learning" surveyRecord "CrossRef").
  discriminate.
Defined.

(** X10: a record whose lower-cased title contains the full lower-cased
    query contains every query term too: it gets the 3 points of each
    term, and its relevanceScore is at least 10 plus 3 per term. *)
Theorem full_match_counts_every_term currentYear q r :
  JS.includes (JS.toLowerCase (title r)) (JS.toLowerCase q) = true →
  let terms := queryTermsOf (JS.toLowerCase q) in
  countTermsIn (JS.toLowerCase (title r)) terms = length terms
  ∧ 10 + 3 * INR (length terms) <= rankedScore currentYear q r.
Proof.
  intros Hfull terms.
  pose proof (ln_citations_nonneg (citationCount r)).
  pose proof (pos_INR (countTermsIn (JS.toLowerCase (abstract r)) terms)).
  assert (countTermsIn (JS.toLowerCase (title r)) terms = length terms) as Hall.
  { apply countTermsIn_all. intros t Ht.
    by apply (full_query_includes_terms _ (JS.toLowerCase q)). }
  split; [done|]. unfold rankedScore. rewrite scoreOf_sum, Hfull.
  fold terms. rewrite Hall.
  repeat match goal with |- context [if ?b then _ else _] => destruct b end; lra.
Qed.

Lemma full_match_counts_every_term_witness :
  let terms := queryTermsOf (JS.toLowerCase "Deep Learning") in
  countTermsIn (JS.toLowerCase (title surveyRecord)) terms = length terms
  ∧ 10 + 3 * INR (length terms) <= rankedScore 2026 "Deep Learning" surveyRecord.
Proof.
  apply (full_match_counts_every_term 2026 "Deep Learning" surveyRecord).
  reflexivity.
Defined.

(** X11: ranking does not see letter case: lower-casing the query, or the
    title or the abstract of a record, leaves every relevanceScore and the
    ranking as they are. *)
Theorem rankResults_ignores_case currentYear results q r :
  rankResults currentYear results (JS.toLowerCase q)
  = rankResults currentYear results q
  ∧ rankedScore currentYear (JS.toLowerCase q) r = rankedScore currentYear q r
  ∧ rankedScore currentYear q (withTitle (JS.toLowerCase (title r)) r)
    = rankedScore currentYear q r
  ∧ rankedScore currentYear q (withAbstract (JS.toLowerCase (abstract r)) r)
    = rankedScore currentYear q r.
Proof.
  split_and!.
  - unfold rankResults. by rewrite toLowerCase_idempotent.
  - unfold rankedScore. by rewrite toLowerCase_idempotent.
  - unfold rankedScore. rewrite !scoreOf_sum. simpl.
    by rewrite toLowerCase_idempotent.
  - unfold rankedScore. rewrite !scoreOf_sum. simpl.
    by rewrite toLowerCase_idempotent.
Qed.
End ScoreMore.

(** ** Adapters and query expansion *)

Section AdaptersMore.
Local Open Scope string_scope.
Implicit Types (r : NormalizedCitation) (s t d : string).

Lemma orElse_nonempty (o : option string) d : d ≠ "" → JS.orElse o d ≠ "".
Proof.
  intros Hd. unfold JS.orElse. destruct o as [s|]; [|done].
  by destruct (String.eqb_spec s "").
Qed.

Lemma yearOrNull_nonzero (y : option Z) : yearOrNull y ≠ Some 0%Z.
Proof. by destruct y as [[| |]|]. Qed.

(** X12: every record the Semantic Scholar adapter returns has a
    non-empty title, author string and abstract (the defaults stand in
    for what the provider leaves out), the source "Semantic Scholar" and a
    non-empty url; the adapter returns one record per paper, in the
    provider's order. *)
Theorem searchSemanticScholar_records reply r :
  r ∈ searchSemanticScholar reply →
  title r ≠ "" ∧ authors r ≠ "" ∧ abstract r ≠ ""
  ∧ source r = "Semantic Scholar"
  ∧ (∃ u, url r = Some u ∧ u ≠ "")
  ∧ ∃ papers, reply = Payload (Some papers)
              ∧ searchSemanticScholar reply = normalizeSemantic <$> papers.
Proof.
  intros Hr.
  assert (∃ papers, reply = Payload (Some papers)
                    ∧ searchSemanticScholar reply = normalizeSemantic <$> papers)
    as (papers & -> & Heq).
  { destruct reply as [| |[[|paper papers]|]]; try by apply elem_of_nil in Hr.
    by exists (paper :: papers). }
  rewrite Heq in Hr. apply list_elem_of_fmap in Hr as (paper & -> & _).
  split_and!; try done.
  - by apply orElse_nonempty.
  - by apply orElse_nonempty.
  - by apply orElse_nonempty.
  - eexists. split; [reflexivity|]. unfold JS.orElse.
    destruct (paperUrl paper) as [u|]; [by destruct (String.eqb_spec u "")|done].
  - by exists papers.
Qed.

Lemma searchSemanticScholar_records_witness :
  title (normalizeSemantic samplePaper) ≠ ""
  ∧ authors (normalizeSemantic samplePaper) ≠ ""
  ∧ abstract (normalizeSemantic samplePaper) ≠ ""
  ∧ source (normalizeSemantic samplePaper) = "Semantic Scholar"
  ∧ (∃ u, url (normalizeSemantic samplePaper) = Some u ∧ u ≠ "")
  ∧ ∃ papers, Payload (Some [samplePaper]) = Payload (Some papers)
              ∧ searchSemanticScholar (Payload (Some [samplePaper]))
                = normalizeSemantic <$> papers.
Proof.
  apply (searchSemanticScholar_records (Payload (Some [samplePaper]))
                                       (normalizeSemantic samplePaper)).
  apply list_elem_of_here.
Defined.

(** X13: every record the CrossRef adapter returns has a non-empty
    title, author string and abstract, the source "CrossRef", a year that
    is absent or different from 0, and a url that is absent or non-empty;
    the adapter returns one record per item, in the provider's order. *)
Theorem searchCrossRef_records reply r :
  r ∈ searchCrossRef reply →
  title r ≠ "" ∧ authors r ≠ "" ∧ abstract r ≠ ""
  ∧ source r = "CrossRef"
  ∧ year r ≠ Some 0%Z
  ∧ url r ≠ Some ""
  ∧ ∃ items, reply = Payload (Some items)
             ∧ searchCrossRef reply = normalizeCrossRef <$> items.
Proof.
  intros Hr.
  assert (∃ items, reply = Payload (Some items)
                   ∧ searchCrossRef reply = normalizeCrossRef <$> items)
    as (items & -> & Heq).
  { destruct reply as [| |[[|item items]|]]; try by apply elem_of_nil in Hr.
    by exists (item :: items). }
  rewrite Heq in Hr. apply list_elem_of_fmap in Hr as (item & -> & _).
  split_and!; try done.
  - by apply orElse_nonempty.
  - by apply orElse_nonempty.
  - by apply orElse_nonempty.
  - apply yearOrNull_nonzero.
  - simpl. unfold JS.truthy.
    destruct (itemURL item) as [u|]; [destruct (String.eqb_spec u "")|].
    + subst u. by destruct (itemDOI item) as [d|]; [destruct (String.eqb d "")|].
    + simpl. congruence.
    + by destruct (itemDOI item) as [d|]; [destruct (String.eqb d "")|].
  - by exists items.
Qed.

Lemma searchCrossRef_records_witness :
  title (normalizeCrossRef sampleItem) ≠ ""
  ∧ authors (normalizeCrossRef sampleItem) ≠ ""
  ∧ abstract (normalizeCrossRef sampleItem) ≠ ""
  ∧ source (normalizeCrossRef sampleItem) = "CrossRef"
  ∧ year (normalizeCrossRef sampleItem) ≠ Some 0%Z
  ∧ url (normalizeCrossRef sampleItem) ≠ Some ""
  ∧ ∃ items, Payload (Some [sampleItem]) = Payload (Some items)
             ∧ searchCrossRef (Payload (Some [sampleItem]))
               = normalizeCrossRef <$> items.
Proof.
  apply (searchCrossRef_records (Payload (Some [sampleItem]))
                                (normalizeCrossRef sampleItem)).
  apply list_elem_of_here.
Defined.

Lemma trimStart_idempotent s : JS.trimStart (JS.trimStart s) = JS.trimStart s.
Proof.
  induction s as [|c s IH]; simpl; [done|].
  destruct (JS.isWhiteSpace c) eqn:Hc; [done|]. simpl. by rewrite Hc.
Qed.

Lemma trimEnd_idempotent s : JS.trimEnd (JS.trimEnd s) = JS.trimEnd s.
Proof.
  induction s as [|c s IH]; simpl; [done|].
  destruct (JS.trimEnd s) as [|a t] eqn:Ht.
  - destruct (JS.isWhiteSpace c) eqn:Hc; simpl; [done|]. by rewrite Hc.
  - change (JS.trimEnd (String c (String a t)))
      with (match JS.trimEnd (String a t) with
            | "" => if JS.isWhiteSpace c then "" else String c ""
            | t' => String c t'
            end).
    by rewrite IH.
Qed.

Lemma trimEnd_keeps_trimmed_start s :
  JS.trimStart s = s → JS.trimStart (JS.trimEnd s) = JS.trimEnd s.
Proof.
  destruct s as [|c s]; [done|]. simpl.
  destruct (JS.isWhiteSpace c) eqn:Hc.
  - intros Heq. exfalso.
    assert (∀ u, (String.length (JS.trimStart u) ≤ String.length u)%nat) as Hlen.
    { clear. induction u as [|a u IH]; simpl; [done|].
      destruct (JS.isWhiteSpace a); simpl; lia. }
    pose proof (Hlen s) as Hs. rewrite Heq in Hs. simpl in Hs. lia.
  - intros _. destruct (JS.trimEnd s); simpl; by rewrite Hc.
Qed.

Lemma trim_idempotent s : JS.trim (JS.trim s) = JS.trim s.
Proof.
  unfold JS.trim.
  rewrite (trimEnd_keeps_trimmed_start (JS.trimStart s))
    by apply trimStart_idempotent.
  apply trimEnd_idempotent.
Qed.

Lemma expandQuery_noExpansion query reply :
  noExpansion reply = true → expandQuery query reply = query.
Proof.
  destruct reply as [| |[content|]]; simpl; try done.
  by destruct (String.eqb_spec (JS.trim content) "").
Qed.


(** X14: on an answer that gives no text (a failure, a response that is
    not ok, no content, or content that is white space only)
    [expandQuery] returns the query itself; on every other answer it
    returns the content trimmed, which is not empty and has no white
    space left around it. *)
Theorem expandQuery_result query reply :
  if noExpansion reply
  then expandQuery query reply = query
  else ∃ content,
         reply = AiContent (Some content)
         ∧ expandQuery query reply = JS.trim content
         ∧ JS.trim content ≠ ""
         ∧ JS.trim (expandQuery query reply) = expandQuery query reply.
Proof.
  destruct reply as [| |[content|]]; simpl; try done.
  destruct (String.eqb_spec (JS.trim content) "") as [Heq|Hne]; [done|].
  exists content. by rewrite trim_idempotent.
Qed.
End AdaptersMore.

(** ** The handler, request by request *)

Section HandlerMore.
Implicit Types (env : Env) (req : Request) (query userId : option string).


Lemma truthy_Some (query : option string) :
  JS.truthy query = true → ∃ q, query = Some q ∧ q ≠ "".
Proof.
  destruct query as [q|]; [|done]. simpl.
  destruct (String.eqb_spec q ""); [done|]. by exists q.
Qed.

Lemma handler_search_status env query userId :
  JS.truthy query = true →
  status (handler env (Search query userId)).2
  = (if decide (aggregated env (expandedQueryOf env (default "" query)) = [])
     then 404 else 200)%Z.
Proof.
  intros Hq. rewrite (handler_search env query userId Hq). cbv zeta. simpl.
  by case_decide.
Qed.

(** X16: the response does not depend on the history store nor on the
    user identifier: whatever the store's url and key are, whether or not
    [createClient] throws, and whoever asks, the same query gets the same
    response. *)
Theorem handler_response_ignores_history
    env supabaseUrl supabaseKey clientThrows query userId userId' :
  (handler (withHistoryStore supabaseUrl supabaseKey clientThrows env)
           (Search query userId)).2
  = (handler env (Search query userId')).2.
Proof.
  destruct (JS.truthy query) eqn:Hq.
  - by rewrite !(handler_search _ query _ Hq).
  - unfold handler. by rewrite Hq.
Qed.

(** X17: when the AI gateway gives no text for the query, the response
    is the one of the same environment without expansion key, and the
    providers are searched with the original query. *)
Theorem handler_expansion_fallback env query userId :
  noExpansion (aiGateway env (default "" query)) = true →
  expandedQueryOf env (default "" query) = default "" query
  ∧ (handler env (Search query userId)).2
    = (handler (withoutExpansionKey env) (Search query userId)).2.
Proof.
  intros Hno.
  assert (expandedQueryOf env (default "" query) = default "" query) as He.
  { unfold expandedQueryOf. destruct (JS.truthy (LOVABLE_API_KEY env)); [|done].
    by apply expandQuery_noExpansion. }
  split; [done|].
  destruct (JS.truthy query) eqn:Hq.
  - rewrite !(handler_search _ query _ Hq). cbv zeta. cbn [snd].
    change (expandedQueryOf (withoutExpansionKey env) (default "" query))
      with (default "" query).
    by rewrite He.
  - unfold handler. by rewrite Hq.
Qed.

Lemma handler_expansion_fallback_witness :
  expandedQueryOf keyedSampleEnv (default "" (Some "attention"))
  = default "" (Some "attention")
  ∧ (handler keyedSampleEnv (Search (Some "attention") None)).2
    = (handler (withoutExpansionKey keyedSampleEnv)
               (Search (Some "attention") None)).2.
Proof.
  apply (handler_expansion_fallback keyedSampleEnv (Some "attention") None).
  reflexivity.
Defined.



(** A 200 response with results, taken apart. *)
Lemma handler_success_inv env req (q e : string) results totalFound :
  (handler env req).2
  = {| status := 200; body := ResultsBody q e results totalFound |} →
  ∃ userId,
    req = Search (Some q) userId ∧ q ≠ "" ∧ e = expandedQueryOf env q
    ∧ aggregated env e ≠ []
    ∧ results
      = take 10 (rankResults (fullYear env) (deduplicateResults (aggregated env e)) q)
    ∧ totalFound = length (deduplicateResults (aggregated env e)).
Proof.
  intros Hresp.
  destruct (handler_status_200 env req) as (query & userId & -> & Hq & Hall).
  { by rewrite Hresp. }
  { intros ->. discriminate Hresp. }
  destruct (truthy_Some query Hq) as (q0 & -> & Hne).
  rewrite (handler_search env (Some q0) userId Hq) in Hresp. cbv zeta in Hresp.
  change (default "" (Some q0)) with q0 in *. cbn [snd] in Hresp.
  rewrite decide_False in Hresp by done.
  injection Hresp as <- <- <- <-. exists userId.
  by rewrite rankResults_length.
Qed.

(** X19: the history store is written exactly when the request has a
    non-empty query and a non-empty user identifier, the providers
    returned something, the store's url and key are set and
    [createClient] does not throw; what is written is the user, the
    original and the expanded query, and the result array of the 200
    response, at most ten records. *)
Theorem handler_history env req (u q e : string) (rs : list ScoredCitation) :
  StoreHistory u q e rs ∈ (handler env req).1
  ↔ req = Search (Some q) (Some u) ∧ q ≠ "" ∧ u ≠ ""
    ∧ e = expandedQueryOf env q
    ∧ JS.truthy (SUPABASE_URL env) = true
    ∧ JS.truthy (SUPABASE_SERVICE_ROLE_KEY env) = true
    ∧ createClientThrows env = false
    ∧ (length rs ≤ 10)%nat
    ∧ (handler env req).2
      = {| status := 200;
           body := ResultsBody q e rs
                     (length (deduplicateResults (aggregated env e))) |}.
Proof.
  split.
  - intros Hin.
    destruct req as [|message|query userId]; [by apply elem_of_nil in Hin..|].
    destruct (JS.truthy query) eqn:Hq.
    2:{ unfold handler in Hin. rewrite Hq in Hin. by apply elem_of_nil in Hin. }
    destruct (truthy_Some query Hq) as (q0 & -> & Hne).
    rewrite (handler_search env (Some q0) userId Hq) in *. cbv zeta in *.
    change (default "" (Some q0)) with q0 in *. cbn [fst snd] in *.
    set (e0 := expandedQueryOf env q0) in *.
    set (ranked := rankResults _ _ _) in *.
    assert (length ranked = length (deduplicateResults (aggregated env e0)))
      as Hlen by apply rankResults_length.
    unfold storeHistory in Hin.
    destruct (decide (aggregated env e0 = [])) as [Hall|Hall].
    { destruct (JS.truthy (LOVABLE_API_KEY env)); simpl in Hin;
        rewrite ?elem_of_cons, ?elem_of_nil in Hin; naive_solver. }
    destruct (JS.truthy userId) eqn:Hu; simpl in Hin.
    2:{ destruct (JS.truthy (LOVABLE_API_KEY env)); simpl in Hin;
          rewrite ?elem_of_cons, ?elem_of_nil in Hin; naive_solver. }
    destruct (truthy_Some userId Hu) as (u0 & -> & Hu0).
    destruct (JS.truthy (SUPABASE_URL env)) eqn:Hurl; simpl in Hin.
    2:{ destruct (JS.truthy (LOVABLE_API_KEY env)); simpl in Hin;
          rewrite ?elem_of_cons, ?elem_of_nil in Hin; naive_solver. }
    destruct (JS.truthy (SUPABASE_SERVICE_ROLE_KEY env)) eqn:Hkey; simpl in Hin.
    2:{ destruct (JS.truthy (LOVABLE_API_KEY env)); simpl in Hin;
          rewrite ?elem_of_cons, ?elem_of_nil in Hin; naive_solver. }
    destruct (createClientThrows env) eqn:Hthrows; simpl in Hin.
    { destruct (JS.truthy (LOVABLE_API_KEY env)); simpl in Hin;
        rewrite ?elem_of_cons, ?elem_of_nil in Hin; naive_solver. }
    assert (StoreHistory u q e rs = StoreHistory u0 q0 e0 (take 10 ranked)) as Heq.
    { destruct (JS.truthy (LOVABLE_API_KEY env)); simpl in Hin;
        rewrite ?elem_of_cons, ?elem_of_nil in Hin; naive_solver. }
    injection Heq as -> -> -> ->.
    split_and!; try done.
    + rewrite length_take. lia.
    + by rewrite Hlen.
  - intros (-> & Hq & Hu & -> & Hurl & Hkey & Hthrows & _ & Hresp).
    destruct (handler_success_inv _ _ _ _ _ _ Hresp)
      as (userId & _ & _ & _ & Hall & -> & _).
    assert (JS.truthy (Some q) = true) as Htq
      by (simpl; by destruct (String.eqb_spec q "")).
    assert (JS.truthy (Some u) = true) as Htu
      by (simpl; by destruct (String.eqb_spec u "")).
    rewrite (handler_search env (Some q) (Some u) Htq). cbv zeta.
    change (default "" (Some q)) with q. cbn [fst].
    rewrite decide_False by done.
    unfold storeHistory. rewrite Htu, Hurl, Hkey, Hthrows. simpl.
    apply elem_of_app. right. do 4 apply list_elem_of_further.
    apply list_elem_of_here.
Qed.

(** X20: the result array of a 200 response is the first ten of the
    ranked unique records: its records have pairwise different identity
    keys, come from the providers' answers to the expanded query, carry
    the score of the original query, are in non-increasing score order,
    and none of the unique records left out scores more than one that is
    in; [totalFound] is at most the number of records the providers
    returned. *)
Theorem handler_results env req (q e : string) results totalFound :
  (handler env req).2
  = {| status := 200; body := ResultsBody q e results totalFound |} →
  let ranked :=
    rankResults (fullYear env) (deduplicateResults (aggregated env e)) q in
  results = take 10 ranked
  ∧ NoDup (identityKey <$> (citation <$> results))
  ∧ StronglySorted (λ a b, relevanceScore b <= relevanceScore a)%R results
  ∧ Forall (λ s, citation s ∈ aggregated env e
                 ∧ relevanceScore s = rankedScore (fullYear env) q (citation s))
           results
  ∧ Forall (λ left, Forall (λ s, relevanceScore left <= relevanceScore s)%R results)
           (drop 10 ranked)
  ∧ (length results ≤ 10)%nat
  ∧ (totalFound ≤ length (aggregated env e))%nat.
Proof.
  intros Hresp ranked.
  destruct (handler_success_inv _ _ _ _ _ _ Hresp)
    as (userId & -> & Hq & -> & Hall & -> & ->).
  fold ranked.
  set (unique := deduplicateResults (aggregated env (expandedQueryOf env q))) in *.
  assert (ranked ≡ₚ scored (fullYear env) q <$> unique) as Hperm
    by (unfold ranked; rewrite rankResults_unfold; apply sort_perm).
  assert (StronglySorted (λ a b, relevanceScore b <= relevanceScore a)%R ranked)
    as Hsorted
    by (unfold ranked; rewrite rankResults_unfold;
        apply (sort_sorted relevanceScore)).
  rewrite <- (take_drop 10 ranked) in Hsorted.
  split_and!.
  - done.
  - apply (sublist_NoDup _ (identityKey <$> (citation <$> ranked))).
    + rewrite Hperm, <- !list_fmap_compose.
      apply deduplicateResults_keys_NoDup.
    + apply fmap_sublist, fmap_sublist, sublist_take.
  - by apply StronglySorted_app_1_l in Hsorted.
  - apply Forall_forall. intros s Hs.
    apply (λ H, elem_of_sublist _ _ _ H (sublist_take ranked 10)) in Hs.
    rewrite Hperm in Hs. apply list_elem_of_fmap in Hs as (r & -> & Hr).
    split; [|done]. simpl.
    by apply (elem_of_sublist _ _ _ Hr), deduplicateResults_sublist.
  - apply Forall_forall. intros s' Hs'. apply Forall_forall. intros s Hs.
    by apply (StronglySorted_app_1_elem_of _ _ _ s s' Hsorted).
  - rewrite length_take. lia.
  - apply sublist_length, deduplicateResults_sublist.
Qed.

Lemma handler_results_witness :
  let ranked :=
    rankResults (fullYear sampleEnv)
                (deduplicateResults (aggregated sampleEnv "attention")) "attention" in
  take 10 ranked = take 10 ranked
  ∧ NoDup (identityKey <$> (citation <$> take 10 ranked))
  ∧ StronglySorted (λ a b, relevanceScore b <= relevanceScore a)%R (take 10 ranked)
  ∧ Forall (λ s, citation s ∈ aggregated sampleEnv "attention"
                 ∧ relevanceScore s
                   = rankedScore (fullYear sampleEnv) "attention" (citation s))
           (take 10 ranked)
  ∧ Forall (λ left, Forall (λ s, relevanceScore left <= relevanceScore s)%R
                           (take 10 ranked))
           (drop 10 ranked)
  ∧ (length (take 10 ranked) ≤ 10)%nat
  ∧ (length ranked ≤ length (aggregated sampleEnv "attention"))%nat.
Proof.
  apply (handler_results sampleEnv (Search (Some "attention") None)
                         "attention" "attention").
  reflexivity.
Defined.

Lemma searchSemanticScholar_nil reply :
  searchSemanticScholar reply = [] ↔ noItems reply = true.
Proof. by destruct reply as [| |[[|paper papers]|]]. Qed.

Lemma searchCrossRef_nil reply :
  searchCrossRef reply = [] ↔ noItems reply = true.
Proof. by destruct reply as [| |[[|item items]|]]. Qed.

(** X21: one provider is enough: a request with a non-empty query is
    answered 200 exactly when at least one provider call carried items,
    and then [allResults] holds the records of the providers that did,
    the failed one adding nothing. *)
Theorem handler_one_provider_suffices env (q : string) userId :
  q ≠ "" →
  let e := expandedQueryOf env q in
  (status (handler env (Search (Some q) userId)).2 = 200%Z
   ↔ noItems (semanticScholarApi env e) = false
     ∨ noItems (crossRefApi env e) = false)
  ∧ aggregated env e
    = (if noItems (semanticScholarApi env e) then []
       else searchSemanticScholar (semanticScholarApi env e))
      ++ (if noItems (crossRefApi env e) then []
          else searchCrossRef (crossRefApi env e)).
Proof.
  intros Hq e.
  assert (aggregated env e
          = (if noItems (semanticScholarApi env e) then []
             else searchSemanticScholar (semanticScholarApi env e))
            ++ (if noItems (crossRefApi env e) then []
                else searchCrossRef (crossRefApi env e))) as Hagg.
  { rewrite aggregated_app.
    destruct (noItems (semanticScholarApi env e)) eqn:Hss,
             (noItems (crossRefApi env e)) eqn:Hcr;
      rewrite ?(searchSemanticScholar_noItems _ Hss),
              ?(searchCrossRef_noItems _ Hcr); done. }
  split; [|done].
  assert (JS.truthy (Some q) = true) as Htq
    by (simpl; by destruct (String.eqb_spec q "")).
  rewrite (handler_search_status env (Some q) userId Htq).
  change (default "" (Some q)) with q. fold e.
  pose proof (searchSemanticScholar_nil (semanticScholarApi env e)) as Hss.
  pose proof (searchCrossRef_nil (crossRefApi env e)) as Hcr.
  rewrite aggregated_app.
  case_decide as Hnil.
  - apply app_eq_nil in Hnil as [H1 H2].
    apply Hss in H1. apply Hcr in H2. rewrite H1, H2. split; [done|].
    by intros [?|?].
  - split; [intros _|done].
    destruct (noItems (semanticScholarApi env e)) eqn:H1; [|by left].
    destruct (noItems (crossRefApi env e)) eqn:H2; [|by right].
    exfalso. apply Hnil.
    by rewrite (proj2 Hss), (proj2 Hcr).
Qed.

Lemma handler_one_provider_suffices_witness :
  let e := expandedQueryOf sampleEnv "attention" in
  (status (handler sampleEnv (Search (Some "attention") None)).2 = 200%Z
   ↔ noItems (semanticScholarApi sampleEnv e) = false
     ∨ noItems (crossRefApi sampleEnv e) = false)
  ∧ aggregated sampleEnv e
    = (if noItems (semanticScholarApi sampleEnv e) then []
       else searchSemanticScholar (semanticScholarApi sampleEnv e))
      ++ (if noItems (crossRefApi sampleEnv e) then []
          else searchCrossRef (crossRefApi sampleEnv e)).
Proof.
  apply (handler_one_provider_suffices sampleEnv "attention" None).
  discriminate.
Defined.

(** X22: what [deduplicateResults] keeps of a list stays, in place, when
    more records are appended: the records kept from the Semantic Scholar
    answer are the first records kept from [allResults]. *)
Theorem deduplicateResults_prefix (l1 l2 : list NormalizedCitation) :
  deduplicateResults l1 `prefix_of` deduplicateResults (l1 ++ l2).
Proof.
  induction l2 as [|r l2 IH] using rev_ind.
  - by rewrite app_nil_r.
  - rewrite app_assoc, deduplicateResults_snoc.
    by apply prefix_app_r.
Qed.
End HandlerMore.
